(** * MTG card tagger: the enrichment pipeline of [tag_cards.py]

    A shallow embedding of [src/tag_cards.py] (response extraction, bounded
    retry with backoff, the three execution modes, resumable and split
    output) together with the properties of its specification.

    Conventions.
    - A Python [str] is the list of its Unicode code points ([list N]).
    - A Python [int] is a [Z].
    - The [json] standard library is not part of the program.  The program's
      functions take it as a parameter ([JsonLib]); [Json.loads] is a
      reference model of [json.loads] used to run the functions on concrete
      texts.
    - A text file is the list of its lines; [f.write(s + "\n")] adds the
      line [s]. *)

From Stdlib Require Import ZArith NArith QArith Qminmax Qpower List String Ascii Lia Lqa.
From Stdlib Require Import DecimalString DecimalNat DecimalPos DecimalZ Decimal.
From stdpp Require Import base option list gmap.

Set Warnings "-register-all,-clear-no-such-hyp".

Open Scope Z_scope.

(** ** Python built-ins used by the program *)

Module Py.

Abbreviation str := (list N).

(** A literal of the model: the code points of an ASCII string. *)
Definition lit (s : string) : str := map N_of_ascii (list_ascii_of_string s).

Definition ch (a : ascii) : N := N_of_ascii a.

(** The double quote. *)
Definition dquote : N := 34%N.

(** A literal written with apostrophes where the text has double quotes. *)
Definition quoted (s : string) : str :=
  map (fun c => if (c =? 39)%N then dquote else c) (lit s).

(** [str.isspace] on one code point: what [str.strip()] removes. *)
Definition is_space (c : N) : bool :=
  ((9 <=? c) && (c <=? 13) || (28 <=? c) && (c <=? 32) || (c =? 133)
   || (c =? 160) || (c =? 5760) || (8192 <=? c) && (c <=? 8202)
   || (c =? 8232) || (c =? 8233) || (c =? 8239) || (c =? 8287)
   || (c =? 12288))%N.

Fixpoint lstrip (s : str) : str :=
  match s with
  | c :: r => if is_space c then lstrip r else s
  | [] => []
  end.

Definition rstrip (s : str) : str := rev (lstrip (rev s)).

(** [s.strip()] *)
Definition strip (s : str) : str := rstrip (lstrip s).

(** [s.find(c)] for a one-character needle: the least index, or [-1]. *)
Fixpoint find (c : N) (s : str) : Z :=
  match s with
  | [] => -1
  | d :: r => if (d =? c)%N then 0
              else let i := find c r in if i =? -1 then -1 else 1 + i
  end.

(** [len(s)] *)
Definition len {A} (s : list A) : Z := Z.of_nat (length s).

(** [s[a:b]] for [0 <= a]; an end beyond the length is clipped. *)
Definition slice {A} (a b : Z) (s : list A) : list A :=
  take (Z.to_nat (b - a)) (drop (Z.to_nat a) s).

(** [range(n)] *)
Definition range (n : Z) : list Z := map Z.of_nat (seq 0 (Z.to_nat n)).

(** [range(hi, lo, -1)]: hi, hi-1, ..., lo+1. *)
Definition range_down (hi lo : Z) : list Z :=
  map (fun k => hi - Z.of_nat k) (seq 0 (Z.to_nat (hi - lo))).

(** [range(0, n, step)] for [0 < step]. *)
Definition range_step (n step : Z) : list Z :=
  map (fun k => Z.of_nat k * step) (seq 0 (Z.to_nat ((n + step - 1) / step))).

(** [min(l, default=d)] *)
Definition min_default (l : list Z) (d : Z) : Z :=
  match l with
  | [] => d
  | x :: r => fold_left Z.min r x
  end.

(** [str(n)] for an [int]. *)
Definition str_of_int (n : Z) : str := lit (NilZero.string_of_int (Z.to_int n)).

End Py.

Import Py.

(** ** The JSON values of Python and a reference model of [json.loads] *)

Module Json.

(** What [json.loads] can return: [None], [bool], [int], [float], [str],
    [list], [dict].  A finite [float] is kept as the decimal number
    [(-1)^neg * m * 10^e] whose correctly rounded binary64 value it is; a
    [dict] keeps its keys in insertion order. *)
Inductive json : Type :=
| JNull
| JBool (b : bool)
| JInt (z : Z)
| JFloat (neg : bool) (m : N) (e : Z)
| JNaN
| JInf (neg : bool)
| JStr (s : str)
| JArr (l : list json)
| JObj (kvs : list (str * json)).

(** [bool(v)].  A float is false when it is zero; the decimal [m * 10^e]
    rounds (to nearest, ties to even) to zero exactly when it is at most
    [2^-1075]. *)
Definition truthy (v : json) : bool :=
  match v with
  | JNull => false
  | JBool b => b
  | JInt z => negb (z =? 0)
  | JFloat _ m e =>
      if 0 <=? e then negb (m =? 0)%N
      else 10 ^ (- e) <? Z.of_N m * 2 ^ 1075
  | JNaN => true
  | JInf _ => true
  | JStr s => match s with [] => false | _ => true end
  | JArr l => match l with [] => false | _ => true end
  | JObj kvs => match kvs with [] => false | _ => true end
  end.

Definition str_eqb (a b : str) : bool := bool_decide (a = b).

(** [d[k] = v] on an insertion-ordered dict. *)
Fixpoint dict_set (k : str) (v : json) (d : list (str * json)) : list (str * json) :=
  match d with
  | [] => [(k, v)]
  | (k', v') :: r => if str_eqb k k' then (k, v) :: r else (k', v') :: dict_set k v r
  end.

(** [d.get(k)] *)
Fixpoint dict_get (k : str) (d : list (str * json)) : option json :=
  match d with
  | [] => None
  | (k', v') :: r => if str_eqb k k' then Some v' else dict_get k r
  end.

(** *** Scanner *)

Definition is_ws (c : N) : bool :=
  ((c =? 32) || (c =? 9) || (c =? 10) || (c =? 13))%N.

Fixpoint skip_ws (s : str) : str :=
  match s with
  | c :: r => if is_ws c then skip_ws r else s
  | [] => []
  end.

Definition is_digit (c : N) : bool := ((48 <=? c) && (c <=? 57))%N.

Fixpoint take_digits (s : str) : list N * str :=
  match s with
  | c :: r => if is_digit c then let '(ds, r') := take_digits r in (c :: ds, r')
              else ([], s)
  | [] => ([], [])
  end.

Definition digits_val (ds : list N) : N :=
  fold_left (fun acc d => (10 * acc + (d - 48))%N) ds 0%N.

Definition hex_val (c : N) : option N :=
  if is_digit c then Some (c - 48)%N
  else if ((97 <=? c) && (c <=? 102))%N then Some (c - 87)%N
  else if ((65 <=? c) && (c <=? 70))%N then Some (c - 55)%N
  else None.

(** Four hexadecimal digits. *)
Definition hex4 (s : str) : option (N * str) :=
  match s with
  | a :: b :: c :: d :: r =>
      match hex_val a, hex_val b, hex_val c, hex_val d with
      | Some x, Some y, Some z, Some w => Some (((x * 16 + y) * 16 + z) * 16 + w, r)%N
      | _, _, _, _ => None
      end
  | _ => None
  end.

Definition is_high_surrogate (u : N) : bool := ((55296 <=? u) && (u <=? 56319))%N.
Definition is_low_surrogate (u : N) : bool := ((56320 <=? u) && (u <=? 57343))%N.
Definition join_surrogates (hi lo : N) : N :=
  (65536 + (hi - 55296) * 1024 + (lo - 56320))%N.

Definition simple_escape (e : N) : option N :=
  if (e =? dquote)%N then Some (dquote)
  else if (e =? ch "\")%N then Some (ch "\")
  else if (e =? ch "/")%N then Some (ch "/")
  else if (e =? ch "b")%N then Some 8%N
  else if (e =? ch "f")%N then Some 12%N
  else if (e =? ch "n")%N then Some 10%N
  else if (e =? ch "r")%N then Some 13%N
  else if (e =? ch "t")%N then Some 9%N
  else None.

(** The body of a string literal, after the opening quote (strict mode:
    control characters are refused). *)
Fixpoint scan_string (fuel : nat) (s acc : str) : option (str * str) :=
  match fuel with
  | O => None
  | S f =>
    match s with
    | [] => None
    | c :: r =>
      if (c =? dquote)%N then Some (rev acc, r)
      else if (c =? ch "\")%N then
        match r with
        | [] => None
        | e :: r' =>
          if (e =? ch "u")%N then
            match hex4 r' with
            | None => None
            | Some (u, r2) =>
              if is_high_surrogate u then
                match r2 with
                | b :: u' :: r3 =>
                  if ((b =? ch "\") && (u' =? ch "u"))%N then
                    match hex4 r3 with
                    | None => None
                    | Some (u2, r4) =>
                      if is_low_surrogate u2
                      then scan_string f r4 (join_surrogates u u2 :: acc)
                      else scan_string f r2 (u :: acc)
                    end
                  else scan_string f r2 (u :: acc)
                | _ => scan_string f r2 (u :: acc)
                end
              else scan_string f r2 (u :: acc)
            end
          else
            match simple_escape e with
            | Some x => scan_string f r' (x :: acc)
            | None => None
            end
        end
      else if (c <? 32)%N then None
      else scan_string f r (c :: acc)
    end
  end.

(** A number: an optional minus sign, an integer part (a single zero, or
    a non-zero digit and more digits), an optional fraction (a dot and at
    least one digit) and an optional exponent (e or E, an optional sign,
    at least one digit).  An incomplete fraction or exponent is left in
    the rest. *)
Definition scan_number (s : str) : option (json * str) :=
  let '(neg, s1) := match s with
                    | c :: r => if (c =? ch "-")%N then (true, r) else (false, s)
                    | [] => (false, s)
                    end in
  let int_part :=
    match s1 with
    | c :: r =>
        if (c =? 48)%N then Some ([c], r)
        else if is_digit c then let '(ds, r') := take_digits r in Some (c :: ds, r')
        else None
    | [] => None
    end in
  match int_part with
  | None => None
  | Some (ids, r1) =>
    let '(fds, r2) :=
      match r1 with
      | p :: d :: _ =>
          if ((p =? ch ".") && is_digit d)%N then take_digits (tl r1) else ([], r1)
      | _ => ([], r1)
      end in
    let '(ex, r3) :=
      match r2 with
      | x :: r' =>
          if ((x =? ch "e") || (x =? ch "E"))%N then
            let '(eneg, r'') :=
              match r' with
              | sg :: t => if (sg =? ch "-")%N then (true, t)
                           else if (sg =? ch "+")%N then (false, t)
                           else (false, r')
              | [] => (false, r')
              end in
            let '(eds, r''') := take_digits r'' in
            match eds with
            | [] => (None, r2)
            | _ => (Some (if eneg : bool then - Z.of_N (digits_val eds)
                          else Z.of_N (digits_val eds)), r''')
            end
          else (None, r2)
      | [] => (None, r2)
      end in
    match fds, ex with
    | [], None =>
        Some (JInt (if neg then - Z.of_N (digits_val ids) else Z.of_N (digits_val ids)), r3)
    | _, _ =>
        Some (JFloat neg (digits_val (ids ++ fds))
                (default 0 ex - Z.of_nat (length fds)), r3)
    end
  end.

(** [s.startswith(p)], returning what follows the prefix. *)
Fixpoint strip_prefix (p s : str) : option str :=
  match p, s with
  | [], _ => Some s
  | a :: p', b :: s' => if (a =? b)%N then strip_prefix p' s' else None
  | _ :: _, [] => None
  end.

Fixpoint scan_once (fuel : nat) (s : str) : option (json * str) :=
  match fuel with
  | O => None
  | S f =>
    match s with
    | [] => None
    | c :: r =>
      if (c =? dquote)%N then
        match scan_string (S (length r)) r [] with
        | Some (v, r') => Some (JStr v, r')
        | None => None
        end
      else if (c =? ch "{")%N then
        match skip_ws r with
        | (c1 :: r2) as r1 =>
            if (c1 =? ch "}")%N then Some (JObj [], r2) else scan_members f r1 []
        | [] => None
        end
      else if (c =? ch "[")%N then
        match skip_ws r with
        | (c1 :: r2) as r1 =>
            if (c1 =? ch "]")%N then Some (JArr [], r2) else scan_elems f r1 []
        | [] => None
        end
      else
        match strip_prefix (lit "null") s, strip_prefix (lit "true") s,
              strip_prefix (lit "false") s, strip_prefix (lit "NaN") s,
              strip_prefix (lit "Infinity") s, strip_prefix (lit "-Infinity") s with
        | Some r', _, _, _, _, _ => Some (JNull, r')
        | _, Some r', _, _, _, _ => Some (JBool true, r')
        | _, _, Some r', _, _, _ => Some (JBool false, r')
        | _, _, _, Some r', _, _ => Some (JNaN, r')
        | _, _, _, _, Some r', _ => Some (JInf false, r')
        | _, _, _, _, _, Some r' => Some (JInf true, r')
        | _, _, _, _, _, _ => scan_number s
        end
    end
  end
with scan_elems (fuel : nat) (s : str) (acc : list json) : option (json * str) :=
  match fuel with
  | O => None
  | S f =>
    match scan_once f s with
    | None => None
    | Some (v, r) =>
      match skip_ws r with
      | c :: r2 =>
          if (c =? ch "]")%N then Some (JArr (rev (v :: acc)), r2)
          else if (c =? ch ",")%N then scan_elems f (skip_ws r2) (v :: acc)
          else None
      | [] => None
      end
    end
  end
with scan_members (fuel : nat) (s : str) (acc : list (str * json)) : option (json * str) :=
  match fuel with
  | O => None
  | S f =>
    match s with
    | q :: r =>
      if (q =? dquote)%N then
        match scan_string (S (length r)) r [] with
        | None => None
        | Some (k, r1) =>
          match skip_ws r1 with
          | colon :: r2 =>
            if (colon =? ch ":")%N then
              match scan_once f (skip_ws r2) with
              | None => None
              | Some (v, r3) =>
                match skip_ws r3 with
                | c :: r4 =>
                    if (c =? ch "}")%N then Some (JObj (dict_set k v acc), r4)
                    else if (c =? ch ",")%N
                    then scan_members f (skip_ws r4) (dict_set k v acc)
                    else None
                | [] => None
                end
              end
            else None
          | [] => None
          end
        end
      else None
    | [] => None
    end
  end.

(** [json.loads(s)]: one value between optional whitespace, [None] where
    Python raises [JSONDecodeError].  The limits of the interpreter (depth
    of recursion, length of an integer literal) are not modelled. *)
Definition loads (s : str) : option json :=
  match scan_once (2 * length s + 2) (skip_ws s) with
  | Some (v, r) => match skip_ws r with [] => Some v | _ => None end
  | None => None
  end.

(** *** Serialiser: [json.dumps] with its default settings

    ASCII output, separators [", "] and [": "].  The text of a finite
    float is Python's [repr] of the binary64 value, which this model does
    not compute: it is the parameter [float_repr]. *)

Definition hex_digit (n : N) : N := (if n <? 10 then 48 + n else 87 + n)%N.

Definition u_escape (u : N) : str :=
  [ch "\"; ch "u"; hex_digit (u / 4096); hex_digit ((u / 256) mod 16);
   hex_digit ((u / 16) mod 16); hex_digit (u mod 16)]%N.

Definition escape_char (c : N) : str :=
  if (c =? dquote)%N then [ch "\"; dquote]
  else if (c =? ch "\")%N then [ch "\"; ch "\"]
  else if (c =? 10)%N then [ch "\"; ch "n"]
  else if (c =? 13)%N then [ch "\"; ch "r"]
  else if (c =? 9)%N then [ch "\"; ch "t"]
  else if (c =? 8)%N then [ch "\"; ch "b"]
  else if (c =? 12)%N then [ch "\"; ch "f"]
  else if ((32 <=? c) && (c <=? 126))%N then [c]
  else if (c <? 65536)%N then u_escape c
  else u_escape (55296 + (c - 65536) / 1024)%N
       ++ u_escape (56320 + (c - 65536) mod 1024)%N.

Definition encode_string (s : str) : str :=
  dquote :: flat_map escape_char s ++ [dquote].

(** [sep.join(l)] *)
Fixpoint join (sep : str) (l : list str) : str :=
  match l with
  | [] => []
  | [x] => x
  | x :: r => x ++ sep ++ join sep r
  end.

Fixpoint dumps (float_repr : bool -> N -> Z -> str) (v : json) : str :=
  match v with
  | JNull => lit "null"
  | JBool true => lit "true"
  | JBool false => lit "false"
  | JInt z => str_of_int z
  | JFloat neg m e => float_repr neg m e
  | JNaN => lit "NaN"
  | JInf false => lit "Infinity"
  | JInf true => lit "-Infinity"
  | JStr s => encode_string s
  | JArr l => ch "[" :: join (lit ", ") (map (dumps float_repr) l) ++ [ch "]"]
  | JObj kvs =>
      ch "{" :: join (lit ", ")
                  (map (fun kv => encode_string (fst kv) ++ lit ": "
                                  ++ dumps float_repr (snd kv)) kvs)
             ++ [ch "}"]
  end.

(** *** Python views of a decoded value *)

(** [iter(v)]: the items a [for] loop visits, [None] where the value is
    not iterable ([TypeError]). *)
Definition py_iter (v : json) : option (list json) :=
  match v with
  | JArr l => Some l
  | JStr s => Some (map (fun c => JStr [c]) s)
  | JObj kvs => Some (map (fun kv => JStr (fst kv)) kvs)
  | _ => None
  end.

(** Whether [hash(v)] succeeds: lists and dicts are unhashable. *)
Definition hashable (v : json) : bool :=
  match v with
  | JArr _ | JObj _ => false
  | _ => true
  end.

End Json.

Import Json.

(** ** The program: [tag_cards.py] *)

(** The [json] module as the program uses it. *)
Record JsonLib := {
  json_loads : str -> option json;   (* [None]: the call raises *)
  json_dumps : json -> str
}.

Definition python_json (float_repr : bool -> N -> Z -> str) : JsonLib :=
  {| json_loads := Json.loads; json_dumps := Json.dumps float_repr |}.

(** *** Response extractor: [clean_json] *)

(** [min([i for i in [txt.find("{"), txt.find("[")] if i != -1], default=-1)] *)
Definition first_bracket (txt : str) : Z :=
  min_default
    (List.filter (fun i => negb (i =? -1)) [find (ch "{") txt; find (ch "[") txt])
    (-1).

(** The [for end in ...] loop: the first snippet [txt[first:end]] that parses. *)
Fixpoint scan_ends (L : JsonLib) (txt : str) (first : Z) (ends : list Z) : option str :=
  match ends with
  | [] => None
  | e :: rest =>
      let snippet := slice first e txt in
      match json_loads L snippet with
      | Some _ => Some snippet
      | None => scan_ends L txt first rest
      end
  end.

Definition clean_json (L : JsonLib) (txt : str) : str :=
  let txt := strip txt in
  match json_loads L txt with
  | Some _ => txt
  | None =>
      let first := first_bracket txt in
      if first =? -1 then txt
      else match scan_ends L txt first (range_down (len txt) first) with
           | Some snippet => snippet
           | None => txt
           end
  end.

(** *** Backoff *)

(** [min((1.5 ** attempt) + u*0.2, 30)] for the random draw [u], over the
    rationals. *)
Definition backoff_delay (attempt : Z) (u : Q) : Q :=
  Qmin ((3 # 2) ^ attempt + u * (2 # 10)) 30.

(** *** Output file names *)

(** A path as [pathlib] splits it: directory, stem and suffix of the name. *)
Record Path := { parent : str; stem : str; suffix : str }.

(** A file of the store: its directory and its name. *)
Abbreviation filename := (str * str)%type.

Definition path_of (p : Path) : filename := (parent p, stem p ++ suffix p).

Definition get_output_filename (base_path : Path) (file_index : Z) : filename :=
  if file_index =? 0 then path_of base_path
  else (parent base_path,
        stem base_path ++ lit "_part" ++ str_of_int (file_index + 1) ++ suffix base_path).

(** *** Cards and arguments *)

Record Card := {
  name : str;
  oracle_id : str;
  oracle_text : str;
  color_identity : list str;
  commander_legality : option str   (* [legalities.commander], if any *)
}.

Record Args := {
  output : Path;
  use_async : bool;
  concurrency : Z;
  batch_size : Z;
  edh_only : bool;
  colors : list str;
  colorless : bool;
  resume : bool;
  split_size : Z
}.

(** *** Effects: the remote service, the clock, the random source and the
    output store *)

Inductive exn := RemoteError | JSONDecodeError | AttributeError | TypeError.

(** What one call of the remote service does. *)
Inductive outcome := Raises | Replies (content : str).

(** The environment of a run: the outcome of the n-th remote call and the
    n-th draw of [random.random()]. *)
Record World := { remote : nat -> outcome; random : nat -> Q }.

Record State := {
  calls : nat;                          (* remote calls made *)
  draws : nat;                          (* random draws made *)
  slept : list Q;                       (* durations of [time.sleep], oldest first *)
  warnings : list (Z * str);            (* [stderr]: retry number and card name *)
  files : gmap filename (list str);     (* the lines of every existing file *)
  journal : list (filename * json)      (* instrumentation: the records written *)
}.

Definition M (A : Type) : Type := State -> (A + exn) * State.

Definition ret {A} (a : A) : M A := fun st => (inl a, st).

Definition raise {A} (e : exn) : M A := fun st => (inr e, st).

Definition bind {A B} (m : M A) (k : A -> M B) : M B :=
  fun st => match m st with
            | (inl a, st') => k a st'
            | (inr e, st') => (inr e, st')
            end.

(** [try: m  except Exception: h] *)
Definition try_except {A} (m : M A) (h : exn -> M A) : M A :=
  fun st => match m st with
            | (inl a, st') => (inl a, st')
            | (inr e, st') => h e st'
            end.

Notation "x <-- m ;; k" := (bind m (fun x => k))
  (at level 100, m at next level, right associativity).
Notation "m ;;; k" := (bind m (fun _ => k))
  (at level 100, right associativity).

Definition set_files (f : gmap filename (list str) -> gmap filename (list str))
    (st : State) : State :=
  {| calls := calls st; draws := draws st; slept := slept st;
     warnings := warnings st; files := f (files st); journal := journal st |}.

(** [client.chat.completions.create(...)] and the content of its reply. *)
Definition chat_create (W : World) : M str :=
  fun st =>
    let st' := {| calls := S (calls st); draws := draws st; slept := slept st;
                  warnings := warnings st; files := files st; journal := journal st |} in
    match remote W (calls st) with
    | Replies content => (inl content, st')
    | Raises => (inr RemoteError, st')
    end.

Definition random_random (W : World) : M Q :=
  fun st =>
    (inl (random W (draws st)),
     {| calls := calls st; draws := S (draws st); slept := slept st;
        warnings := warnings st; files := files st; journal := journal st |}).

Definition time_sleep (d : Q) : M unit :=
  fun st =>
    (inl tt,
     {| calls := calls st; draws := draws st; slept := slept st ++ [d];
        warnings := warnings st; files := files st; journal := journal st |}).

Definition stderr_write (retry_no : Z) (card_name : str) : M unit :=
  fun st =>
    (inl tt,
     {| calls := calls st; draws := draws st; slept := slept st;
        warnings := warnings st ++ [(retry_no, card_name)];
        files := files st; journal := journal st |}).

(** The lines of a file; a missing file has none. *)
Definition content (fs : gmap filename (list str)) (p : filename) : list str :=
  default [] (fs !! p).

(** [open(p, "a")] creates the file when it is missing. *)
Definition fs_touch (p : filename) (fs : gmap filename (list str)) :=
  <[p := content fs p]> fs.

(** [f.write(line + "\n")] on a file opened for appending. *)
Definition fs_append (p : filename) (line : str) (fs : gmap filename (list str)) :=
  <[p := content fs p ++ [line]]> fs.

(** [p.write_text("")] *)
Definition fs_truncate (p : filename) (fs : gmap filename (list str)) :=
  <[p := []]> fs.

Definition open_append (p : filename) : M unit :=
  fun st => (inl tt, set_files (fs_touch p) st).

(** [with p.open("a") as f: f.write(json.dumps(v) + "\n")] *)
Definition write_record (L : JsonLib) (p : filename) (v : json) : M unit :=
  fun st =>
    (inl tt,
     {| calls := calls st; draws := draws st; slept := slept st;
        warnings := warnings st;
        files := fs_append p (json_dumps L v) (files st);
        journal := journal st ++ [(p, v)] |}).

(** *** Retry controller, one card per call: [tag_card_sync] *)

Definition default_retries : Z := 5.

Definition backoff (W : World) (attempt : Z) : M unit :=
  u <-- random_random W ;; time_sleep (backoff_delay attempt u).

(** The body of the [try]: the remote call, [clean_json], [json.loads]. *)
Definition request (L : JsonLib) (W : World) : M json :=
  content <-- chat_create W ;;
  match json_loads L (clean_json L content) with
  | Some v => ret v
  | None => raise JSONDecodeError
  end.

(** The [for attempt in range(retries)] loop; [return None] after it is the
    value [JNull]. *)
Fixpoint tag_card_loop (L : JsonLib) (W : World) (card : Card) (attempts : list Z)
  : M json :=
  match attempts with
  | [] => ret JNull
  | attempt :: rest =>
      try_except (request L W)
        (fun _ => stderr_write (attempt + 1) (name card) ;;;
                  backoff W attempt ;;;
                  tag_card_loop L W card rest)
  end.

Definition tag_card_sync (L : JsonLib) (W : World) (card : Card) (retries : Z) : M json :=
  tag_card_loop L W card (range retries).

(** *** Retry controller, one batch per call: [tag_cards_batch_sync] *)

(** The body of the [try]: [arr = json.loads(clean_json(...))], then
    [arr if isinstance(arr, list) else arr.get("results", [])]; a value that
    is neither a list nor a dict has no [get]. *)
Definition batch_request (L : JsonLib) (W : World) : M json :=
  content <-- chat_create W ;;
  match json_loads L (clean_json L content) with
  | None => raise JSONDecodeError
  | Some (JArr l) => ret (JArr l)
  | Some (JObj kvs) => ret (default (JArr []) (dict_get (lit "results") kvs))
  | Some _ => raise AttributeError
  end.

Fixpoint tag_cards_batch_loop (L : JsonLib) (W : World) (cards : list Card)
    (attempts : list Z) : M json :=
  match attempts with
  | [] => ret (JArr (repeat JNull (length cards)))
  | attempt :: rest =>
      try_except (batch_request L W)
        (fun _ => stderr_write (attempt + 1) [] ;;;
                  backoff W attempt ;;;
                  tag_cards_batch_loop L W cards rest)
  end.

Definition tag_cards_batch_sync (L : JsonLib) (W : World) (cards : list Card)
    (retries : Z) : M json :=
  tag_cards_batch_loop L W cards (range retries).

(** *** Output sink *)

(** The counters of a run. *)
Record Sink := {
  successful_count : Z;
  current_file_index : Z;
  current_file_count : Z
}.

Definition sink_start : Sink :=
  {| successful_count := 0; current_file_index := 0; current_file_count := 0 |}.

(** [if split_size > 0 and current_file_count >= split_size:] move on to the
    next file. *)
Definition switch_file (split : Z) (k : Sink) : Sink :=
  if (0 <? split) && (split <=? current_file_count k)
  then {| successful_count := successful_count k;
          current_file_index := current_file_index k + 1;
          current_file_count := 0 |}
  else k.

Definition count_success (k : Sink) : Sink :=
  {| successful_count := successful_count k + 1;
     current_file_index := current_file_index k;
     current_file_count := current_file_count k + 1 |}.

(** The body of [if tagged:] in the sequential loop (and of [if result:] in
    [safe_tag], which is the same text). *)
Definition write_result (L : JsonLib) (out : Path) (split : Z) (v : json) (k : Sink)
  : M Sink :=
  let k1 := switch_file split k in
  write_record L (get_output_filename out (current_file_index k1)) v ;;;
  ret (count_success k1).

(** *** Sequential mode *)

Fixpoint sequential_loop (L : JsonLib) (W : World) (args : Args) (cards : list Card)
    (k : Sink) : M Sink :=
  match cards with
  | [] => ret k
  | card :: rest =>
      tagged <-- tag_card_sync L W card default_retries ;;
      k' <-- (if truthy tagged
              then write_result L (output args) (split_size args) tagged k
              else ret k) ;;
      sequential_loop L W args rest k'
  end.

(** *** Batch mode *)

(** [for r in tagged_batch: if r: write, count] on the file opened once per
    batch. *)
Fixpoint write_batch (L : JsonLib) (p : filename) (items : list json) (k : Sink)
  : M Sink :=
  match items with
  | [] => ret k
  | r :: rest =>
      if truthy r
      then write_record L p r ;;; write_batch L p rest (count_success k)
      else write_batch L p rest k
  end.

Fixpoint batch_loop (L : JsonLib) (W : World) (args : Args) (cards : list Card)
    (starts : list Z) (k : Sink) : M Sink :=
  match starts with
  | [] => ret k
  | i :: rest =>
      let batch := slice i (i + batch_size args) cards in
      tagged_batch <-- tag_cards_batch_sync L W batch default_retries ;;
      let k1 := switch_file (split_size args) k in
      let p := get_output_filename (output args) (current_file_index k1) in
      open_append p ;;;
      items <-- match py_iter tagged_batch with
                | Some l => ret l
                | None => raise TypeError
                end ;;
      k2 <-- write_batch L p items k1 ;;
      batch_loop L W args cards rest k2
  end.

(** *** Filters of [main] *)

(** [card.get('oracle_text')] is truthy. *)
Definition has_oracle_text (card : Card) : bool :=
  match oracle_text card with [] => false | _ => true end.

(** [card.get('legalities', {}).get('commander') == 'legal'] *)
Definition edh_legal (card : Card) : bool :=
  match commander_legality card with
  | Some l => str_eqb l (lit "legal")
  | None => false
  end.

(** The two branches of the colour loop that append the card. *)
Definition color_match (args : Args) (card : Card) : bool :=
  let target_colors : gset str := list_to_set (colors args) in
  let card_colors : gset str := list_to_set (color_identity card) in
  if colorless args && bool_decide (card_colors = ∅) then true
  else if negb (bool_decide (target_colors = ∅))
          && bool_decide (card_colors = target_colors) then true
  else false.

Definition color_filter (args : Args) (cards : list Card) : list Card :=
  if negb (bool_decide (colors args = [])) || colorless args
  then List.filter (color_match args) cards
  else cards.

Definition apply_filters (args : Args) (input_cards : list Card) : list Card :=
  let input_cards := List.filter has_oracle_text input_cards in
  let input_cards := if edh_only args then List.filter edh_legal input_cards
                     else input_cards in
  color_filter args input_cards.

(** *** Resume *)

(** The scan of the existing output file: the recorded [oracle_id]s, or
    [None] when a line raises ([json.loads] fails, the value has no [get],
    or the identifier is unhashable). *)
Fixpoint resume_scan (L : JsonLib) (lines : list str) (processed : list json)
  : option (list json) :=
  match lines with
  | [] => Some processed
  | line :: rest =>
      match strip line with
      | [] => resume_scan L rest processed
      | _ =>
          match json_loads L (strip line) with
          | Some (JObj kvs) =>
              let id := default JNull (dict_get (lit "oracle_id") kvs) in
              if hashable id then resume_scan L rest (processed ++ [id]) else None
          | _ => None
          end
      end
  end.

(** [card.get("oracle_id") in processed_oracle_ids]: a [str] is equal to
    strings only. *)
Definition id_in (id : str) (processed : list json) : bool :=
  existsb (fun v => match v with JStr s => str_eqb id s | _ => false end) processed.

Definition resume_or_clear (L : JsonLib) (args : Args) (input_cards : list Card)
  : M (list Card) :=
  fun st =>
    let out := path_of (output args) in
    if resume args then
      match files st !! out with
      | Some lines =>
          match resume_scan L lines [] with
          | Some processed =>
              (inl (List.filter (fun card => negb (id_in (oracle_id card) processed))
                      input_cards), st)
          | None => (inl input_cards, st)
          end
      | None => (inl input_cards, st)
      end
    else (inl input_cards, set_files (fs_truncate out) st).

(** [main] up to "Final processing count". *)
Definition prepare (L : JsonLib) (args : Args) (input_cards : list Card)
  : M (list Card) :=
  resume_or_clear L args (apply_filters args input_cards).

(** The branch [main] takes after the preparation. *)
Inductive mode := Async | Batch | Sequential.

Definition dispatch (args : Args) : mode :=
  if use_async args then Async
  else if 0 <? batch_size args then Batch
  else Sequential.

(** [main]: the cards processed and the final counters.  In the
    asynchronous mode [main] hands the cards to the event loop and has no
    counters of its own: that run is the transition system [step] below,
    started by [async_start]. *)
Definition main (L : JsonLib) (W : World) (args : Args) (input_cards : list Card)
  : M (list Card * option Sink) :=
  cards <-- prepare L args input_cards ;;
  match dispatch args with
  | Async => ret (cards, None)
  | Batch =>
      k <-- batch_loop L W args cards
              (range_step (len cards) (batch_size args)) sink_start ;;
      ret (cards, Some k)
  | Sequential =>
      k <-- sequential_loop L W args cards sink_start ;;
      ret (cards, Some k)
  end.

(** *** Asynchronous mode: [batch_tag_cards_async]

    One task per card runs [safe_tag] on a single-threaded event loop.  A
    task is suspended only at [async with sem], at the remote call and at
    [asyncio.sleep]; what it does between two suspensions is one step. *)

Inductive task :=
| Created                     (* not yet past [async with sem] *)
| Calling (attempt : Z)       (* holds a slot, awaits the remote call *)
| Sleeping (attempt : Z)      (* holds a slot, awaits [asyncio.sleep] *)
| Finished (result : json).   (* [safe_tag] returned, slot released *)

Record Loop := {
  sem : Z;                                  (* value of the semaphore *)
  tasks : list task;                        (* one per card, in order *)
  sink : Sink;                              (* the [nonlocal] counters *)
  store : gmap filename (list str);
  records : list (nat * filename * json);   (* instrumentation: task, file, record *)
  admitted : list nat                       (* instrumentation: tasks let in, in order *)
}.

(** [asyncio.Semaphore(concurrency)] refuses a negative value; then
    [tasks = [safe_tag(card) for card in cards]]. *)
Definition async_start (args : Args) (cards : list Card)
    (fs : gmap filename (list str)) : option Loop :=
  if concurrency args <? 0 then None
  else Some {| sem := concurrency args;
               tasks := map (fun _ => Created) cards;
               sink := sink_start;
               store := fs;
               records := [];
               admitted := [] |}.

(** What one attempt of [tag_card_async] gives: the decoded value, or [None]
    when the [try] body raises. *)
Definition attempt_result (L : JsonLib) (o : outcome) : option json :=
  match o with
  | Raises => None
  | Replies content => json_loads L (clean_json L content)
  end.

(** From the return of [tag_card_async] to the end of [safe_tag]: the write
    when the result is truthy, then the release of the slot. *)
Definition finish (L : JsonLib) (args : Args) (i : nat) (result : json) (s : Loop)
  : Loop :=
  if truthy result then
    let k1 := switch_file (split_size args) (sink s) in
    let p := get_output_filename (output args) (current_file_index k1) in
    {| sem := sem s + 1;
       tasks := <[i := Finished result]> (tasks s);
       sink := count_success k1;
       store := fs_append p (json_dumps L result) (store s);
       records := records s ++ [(i, p, result)];
       admitted := admitted s |}
  else
    {| sem := sem s + 1;
       tasks := <[i := Finished result]> (tasks s);
       sink := sink s;
       store := store s;
       records := records s;
       admitted := admitted s |}.

Definition set_task (i : nat) (t : task) (s : Loop) : Loop :=
  {| sem := sem s; tasks := <[i := t]> (tasks s); sink := sink s;
     store := store s; records := records s; admitted := admitted s |}.

Inductive step (L : JsonLib) (args : Args) : Loop -> Loop -> Prop :=
| step_acquire (s : Loop) (i : nat) :
    tasks s !! i = Some Created ->
    0 < sem s ->
    step L args s
      {| sem := sem s - 1; tasks := <[i := Calling 0]> (tasks s); sink := sink s;
         store := store s; records := records s; admitted := admitted s ++ [i] |}
| step_attempt (s : Loop) (i : nat) (attempt : Z) (o : outcome) :
    tasks s !! i = Some (Calling attempt) ->
    step L args s
      (match attempt_result L o with
       | Some result => finish L args i result s
       | None => set_task i (Sleeping attempt) s
       end)
| step_wake (s : Loop) (i : nat) (attempt : Z) :
    tasks s !! i = Some (Sleeping attempt) ->
    step L args s
      (if attempt + 1 <? default_retries
       then set_task i (Calling (attempt + 1)) s
       else finish L args i JNull s).

(** The states an execution can reach. *)
Definition reachable (L : JsonLib) (args : Args) (s0 s : Loop) : Prop :=
  rtc (step L args) s0 s.

Definition is_calling (t : task) : bool :=
  match t with Calling _ => true | _ => false end.

Definition holds_slot (t : task) : bool :=
  match t with Calling _ | Sleeping _ => true | _ => false end.

(** The number of remote calls in flight. *)
Definition in_flight (s : Loop) : Z := len (List.filter is_calling (tasks s)).

(** ** What the specification says of the response extractor

    The four cases of the algorithm, on the trimmed text [t]: the result is
    [t] itself when it parses or holds no bracket or no candidate parses,
    and otherwise the longest [t[start:e]] that parses, [start] being the
    earliest bracket. *)

Definition earliest_bracket (t : str) (start : Z) : Prop :=
  0 <= start /\
  (exists c, t !! Z.to_nat start = Some c /\ (c = ch "{" \/ c = ch "[")) /\
  forall j c, (j < Z.to_nat start)%nat -> t !! j = Some c ->
              c <> ch "{" /\ c <> ch "[".

Inductive extracted (L : JsonLib) (t : str) : str -> Prop :=
| extracted_whole :
    is_Some (json_loads L t) -> extracted L t t
| extracted_no_bracket :
    json_loads L t = None -> ch "{" ∉ t -> ch "[" ∉ t -> extracted L t t
| extracted_snippet (start e : Z) :
    json_loads L t = None ->
    earliest_bracket t start ->
    start < e <= len t ->
    is_Some (json_loads L (slice start e t)) ->
    (forall e', e < e' <= len t -> json_loads L (slice start e' t) = None) ->
    extracted L t (slice start e t)
| extracted_no_candidate (start : Z) :
    json_loads L t = None ->
    earliest_bracket t start ->
    (forall e, start < e <= len t -> json_loads L (slice start e t) = None) ->
    extracted L t t.

(** ** What the specification says of the retry controller *)

(** The state after a failed attempt: one more call, the warning, one draw
    and one sleep. *)
Definition after_failure (W : World) (card_name : str) (attempt : Z) (st : State)
  : State :=
  {| calls := S (calls st);
     draws := S (draws st);
     slept := slept st ++ [backoff_delay attempt (random W (draws st))];
     warnings := warnings st ++ [(attempt + 1, card_name)];
     files := files st;
     journal := journal st |}.

(** The state after a successful attempt: one more call. *)
Definition after_success (st : State) : State :=
  {| calls := S (calls st); draws := draws st; slept := slept st;
     warnings := warnings st; files := files st; journal := journal st |}.


(** ** What the specification says of resuming *)

(** The line holds a JSON object whose [oracle_id] (or [None], when it has
    none) is [id]. *)
Definition line_records (L : JsonLib) (line : str) (id : json) : Prop :=
  exists kvs, json_loads L (strip line) = Some (JObj kvs) /\
              default JNull (dict_get (lit "oracle_id") kvs) = id.

(** A line the scan gets through: blank, or an object with a hashable
    identifier. *)
Definition readable_line (L : JsonLib) (line : str) : Prop :=
  strip line = [] \/ exists id, line_records L line id /\ hashable id = true.

(** The identifier is recorded in the file. *)
Definition recorded (L : JsonLib) (lines : list str) (id : str) : Prop :=
  exists line, line ∈ lines /\ strip line <> [] /\ line_records L line (JStr id).

(** ** What the specification says of the output store *)

(** The lines that the records add to the file [p], in order. *)
Definition lines_for (L : JsonLib) (p : filename) (recs : list (filename * json))
  : list str :=
  map (fun r => json_dumps L (snd r))
    (List.filter (fun r => bool_decide (fst r = p)) recs).

(** Every file of [fs'] is the file of [fs] followed by the lines of the
    records written to it. *)
Definition appended (L : JsonLib) (fs fs' : gmap filename (list str))
    (recs : list (filename * json)) : Prop :=
  forall p, content fs' p = content fs p ++ lines_for L p recs.

(** From [st] to [st'] the records [recs] were written, and nothing else
    happened to the files. *)
Definition extends (L : JsonLib) (st st' : State) (recs : list (filename * json))
  : Prop :=
  journal st' = journal st ++ recs /\ appended L (files st) (files st') recs.

(** The file and the value of the records of the event loop. *)
Definition written (s : Loop) : list (filename * json) :=
  map (fun r => (snd (fst r), snd r)) (records s).

(** ** What the specification says of the admission gate *)

(** The slots taken and the slots free add up to the capacity. *)
Definition gate_ok (capacity : Z) (s : Loop) : Prop :=
  0 <= sem s /\ sem s + len (List.filter holds_slot (tasks s)) = capacity.

(** A task was let in at most once, and exactly the tasks let in have
    started. *)
Definition admitted_ok (s : Loop) : Prop :=
  NoDup (admitted s) /\
  forall i, i ∈ admitted s <-> exists t, tasks s !! i = Some t /\ t <> Created.

(** The records of the event loop account for the store: each was written
    once, for a task that has finished with that truthy value, and no task
    has two. *)
Definition records_ok (L : JsonLib) (fs0 : gmap filename (list str)) (s : Loop) : Prop :=
  appended L fs0 (store s) (written s) /\
  Forall (fun r => truthy (snd r) = true /\
                   tasks s !! fst (fst r) = Some (Finished (snd r))) (records s) /\
  NoDup (map (fun r => fst (fst r)) (records s)).

(** ** What the specification says of file splitting *)

(** The number of records written to the file [p]. *)
Definition count_for (p : filename) (recs : list (filename * json)) : Z :=
  len (List.filter (fun r => bool_decide (fst r = p)) recs).

(** The counters agree with the records of the run: the current file holds
    [current_file_count] of them, at most the threshold; the files before it
    hold at most the threshold each; no other file holds any. *)
Definition split_ok (out : Path) (split : Z) (k : Sink) (recs : list (filename * json))
  : Prop :=
  0 <= current_file_index k /\
  0 <= current_file_count k <= split /\
  count_for (get_output_filename out (current_file_index k)) recs = current_file_count k /\
  (forall j, 0 <= j < current_file_index k ->
             count_for (get_output_filename out j) recs <= split) /\
  (forall p, (forall j, 0 <= j <= current_file_index k -> p <> get_output_filename out j) ->
             count_for p recs = 0).

(** ** Sample inputs *)

(** The reference [json] model; no float occurs in the samples. *)
Definition sample_json : JsonLib := python_json (fun _ _ _ => []).

(** One colour symbol per letter. *)
Definition symbols (letters : string) : list str :=
  map (fun a => [ch a]) (list_ascii_of_string letters).

Definition sample_card (id : string) (identity : string) : Card :=
  {| name := lit id; oracle_id := lit id; oracle_text := lit "Flying";
     color_identity := symbols identity; commander_legality := Some (lit "legal") |}.

Definition fresh_state : State :=
  {| calls := 0; draws := 0; slept := []; warnings := []; files := ∅; journal := [] |}.

Definition sample_output : Path :=
  {| parent := lit "../output"; stem := lit "tagged_cards"; suffix := lit ".jsonl" |}.

(** The defaults of the argument parser. *)
Definition default_args : Args :=
  {| output := sample_output; use_async := false; concurrency := 10; batch_size := 0;
     edh_only := false; colors := []; colorless := false; resume := false;
     split_size := 0 |}.


(** A service that always fails. *)
Definition dead_world : World :=
  {| remote := fun _ => Raises; random := fun _ => 0 # 1 |}.

Definition with_colors (cs : string) (cl : bool) : Args :=
  {| output := sample_output; use_async := false; concurrency := 10; batch_size := 0;
     edh_only := false; colors := symbols cs; colorless := cl; resume := false;
     split_size := 0 |}.

(** Sequential ([batch = 0]) or batch mode, with or without resume and
    splitting. *)
Definition run_args (batch split : Z) (res : bool) : Args :=
  {| output := sample_output; use_async := false; concurrency := 10;
     batch_size := batch; edh_only := false; colors := []; colorless := false;
     resume := res; split_size := split |}.

Definition state_with_files (fs : gmap filename (list str)) : State :=
  {| calls := 0; draws := 0; slept := []; warnings := []; files := fs; journal := [] |}.

(** An output file whose second line was cut short. *)
Definition damaged_output : gmap filename (list str) :=
  {[ path_of sample_output :=
       [quoted "{'oracle_id': 'A', 'tags': []}"; quoted "{'oracle_id': 'B', 'ta"] ]}.

(** An output file with two records and a blank line. *)
Definition partial_output : gmap filename (list str) :=
  {[ path_of sample_output :=
       [quoted "{'oracle_id': 'A', 'tags': []}"; lit "  ";
        quoted "{'oracle_id': 'B', 'tags': []}"] ]}.

(** A service that answers every call with the same text. *)
Definition constant_world (reply : string) : World :=
  {| remote := fun _ => Replies (quoted reply); random := fun _ => 0 # 1 |}.

(** A service that answers for card A on even calls and for card B on odd
    ones. *)
Definition alternating_world : World :=
  {| remote := fun n => if Nat.even n
                        then Replies (quoted "{'oracle_id': 'A'}")
                        else Replies (quoted "{'oracle_id': 'B'}");
     random := fun _ => 0 # 1 |}.

(** The second output file of the sample run. *)
Definition sample_part2 : filename :=
  (lit "../output", lit "tagged_cards_part2.jsonl").

Definition sample_part3 : filename :=
  (lit "../output", lit "tagged_cards_part3.jsonl").

Definition five_cards : list Card :=
  [sample_card "A" ""; sample_card "B" ""; sample_card "C" ""; sample_card "D" "";
   sample_card "E" ""].

(** The event loop on five cards with the default capacity: at the start,
    after the first task was let in, and after that task got its reply. *)
Definition sample_loop_start : Loop :=
  {| sem := 10; tasks := map (fun _ => Created) five_cards; sink := sink_start;
     store := ∅; records := []; admitted := [] |}.

Definition sample_loop_admitted : Loop :=
  {| sem := 9; tasks := <[0%nat := Calling 0]> (tasks sample_loop_start);
     sink := sink_start; store := ∅; records := []; admitted := [0%nat] |}.

Definition sample_loop_written : Loop :=
  finish sample_json default_args 0 (JObj [(lit "oracle_id", JStr (lit "A"))])
    sample_loop_admitted.

(** ** Further properties: notions they use *)

(** [s] occurs in [t] as a contiguous part. *)
Definition part_of (s t : str) : Prop := exists pre post, t = pre ++ s ++ post.



(** The exact layout of the records of a run under a threshold: the files
    before the current one hold the threshold each, the current one holds
    [current_file_count] (at least one once something was written), no
    other file holds any, and the success counter is their total. *)
Definition split_exact (out : Path) (split : Z) (k : Sink)
    (recs : list (filename * json)) : Prop :=
  0 <= current_file_index k /\
  0 <= current_file_count k <= split /\
  (recs <> [] -> 1 <= current_file_count k) /\
  successful_count k = len recs /\
  len recs = current_file_index k * split + current_file_count k /\
  count_for (get_output_filename out (current_file_index k)) recs = current_file_count k /\
  (forall j, 0 <= j < current_file_index k ->
             count_for (get_output_filename out j) recs = split) /\
  (forall p, (forall j, 0 <= j <= current_file_index k -> p <> get_output_filename out j) ->
             count_for p recs = 0).

(** The steps a task still has before it: one to be let in, then two per
    attempt (the call and the sleep), the last sleep ending the task. *)
Definition task_weight (t : task) : Z :=
  match t with
  | Created => 2 * default_retries + 1
  | Calling attempt => 2 * (default_retries - attempt)
  | Sleeping attempt => 2 * (default_retries - attempt) - 1
  | Finished _ => 0
  end.

Definition remaining_steps (s : Loop) : Z :=
  fold_right (fun t acc => task_weight t + acc) 0 (tasks s).

(** The attempt of a running task is one of [range(retries)]. *)
Definition attempt_in_range (t : task) : Prop :=
  match t with
  | Calling attempt | Sleeping attempt => 0 <= attempt < default_retries
  | _ => True
  end.

Definition is_finished (t : task) : bool :=
  match t with Finished _ => true | _ => false end.

(** The asynchronous mode with a given capacity. *)
Definition async_args (capacity split : Z) : Args :=
  {| output := sample_output; use_async := true; concurrency := capacity;
     batch_size := 0; edh_only := false; colors := []; colorless := false;
     resume := false; split_size := split |}.

(** What one attempt of [tag_cards_batch_sync] gives: the reply when it is a
    list, its [results] (or the empty list) when it is a dict, and [None]
    when the [try] body raises. *)
Definition batch_attempt_result (L : JsonLib) (o : outcome) : option json :=
  match attempt_result L o with
  | Some (JArr l) => Some (JArr l)
  | Some (JObj kvs) => Some (default (JArr []) (dict_get (lit "results") kvs))
  | _ => None
  end.

(** The batches of [main]: [input_cards[i:i+batch_size]] for [i] in
    [range(0, len(input_cards), batch_size)]. *)
Definition batches (cards : list Card) (size : Z) : list (list Card) :=
  map (fun i => slice i (i + size) cards) (range_step (len cards) size).

(** A line on which the resume scan raises although it is valid JSON: the
    value is not an object, or its identifier cannot be put in a set. *)
Definition unusable_line (L : JsonLib) (line : str) : Prop :=
  strip line <> [] /\
  exists v, json_loads L (strip line) = Some v /\
            match v with
            | JObj kvs => hashable (default JNull (dict_get (lit "oracle_id") kvs)) = false
            | _ => True
            end.

(** An output file whose only line is a JSON array. *)
Definition array_output : gmap filename (list str) :=
  {[ path_of sample_output := [lit "[1]"] ]}.

(** ** The program: [filter_cards.py] *)

(** [get_color_combinations]: the single colours, the pairs [i < j], and
    the three colours together. *)
Definition get_color_combinations : list (gset str) :=
  let colors := [lit "B"; lit "W"; lit "R"] in
  map (fun color => ({[color]} : gset str)) colors
  ++ flat_map
       (fun i => map (fun j => ({[nth i colors []; nth j colors []]} : gset str))
                   (seq (i + 1) (length colors - (i + 1))))
       (seq 0 (length colors))
  ++ [({[lit "B"; lit "W"; lit "R"]} : gset str)].

(** [color_identity in valid_combinations] *)
Definition in_combinations (identity : gset str) (combos : list (gset str)) : bool :=
  existsb (fun combo => bool_decide (identity = combo)) combos.

(** The cards that the loop of [filter_cards] appends, which are the
    content of the file it writes. *)
Definition filter_cards (all_cards : list Card) : list Card :=
  let valid_combinations := get_color_combinations in
  List.filter
    (fun card =>
       if negb (has_oracle_text card) then false
       else if negb (edh_legal card) then false
       else in_combinations (list_to_set (color_identity card)) valid_combinations)
    all_cards.

(** ** Proofs *)

(** *** Python built-ins *)

Lemma find_lower (c : N) (s : str) : -1 <= find c s < len s.
Proof.
  unfold len. induction s as [|d r IH]; simpl; [lia|].
  destruct (d =? c)%N; [lia|].
  destruct (find c r =? -1) eqn:E; lia.
Qed.

Lemma find_absent (c : N) (s : str) : find c s = -1 <-> c ∉ s.
Proof.
  induction s as [|d r IH]; simpl.
  - split; [intros _; apply not_elem_of_nil | reflexivity].
  - destruct (N.eqb_spec d c) as [->|Hne].
    + split; [lia | intros H; exfalso; apply H; left].
    + pose proof (find_lower c r) as Hl.
      destruct (find c r =? -1) eqn:E.
      * apply Z.eqb_eq in E. split; [|reflexivity].
        intros _ Hin. apply elem_of_cons in Hin as [->|Hin]; [congruence|].
        apply IH in E. contradiction.
      * apply Z.eqb_neq in E. split; [lia|].
        intros Hnot. exfalso. apply E, IH. intros Hin. apply Hnot. by right.
Qed.

Lemma find_present (c : N) (s : str) :
  0 <= find c s ->
  s !! Z.to_nat (find c s) = Some c /\
  forall j, (j < Z.to_nat (find c s))%nat -> s !! j <> Some c.
Proof.
  induction s as [|d r IH]; simpl; [lia|].
  destruct (N.eqb_spec d c) as [->|Hne].
  - intros _. split; [reflexivity | intros j Hj; simpl in Hj; lia].
  - pose proof (find_lower c r) as Hl.
    destruct (find c r =? -1) eqn:E; [lia|]. apply Z.eqb_neq in E.
    intros _. destruct IH as [IH1 IH2]; [lia|].
    replace (Z.to_nat (1 + find c r)) with (S (Z.to_nat (find c r))) by lia.
    split; [exact IH1|].
    intros [|j] Hj; simpl; [congruence | apply IH2; lia].
Qed.

Lemma range_down_nil (hi lo : Z) : hi <= lo -> range_down hi lo = [].
Proof. intros H. unfold range_down. replace (Z.to_nat (hi - lo)) with 0%nat by lia. reflexivity. Qed.

Lemma range_down_cons (hi lo : Z) :
  lo < hi -> range_down hi lo = hi :: range_down (hi - 1) lo.
Proof.
  intros H. unfold range_down.
  replace (Z.to_nat (hi - lo)) with (S (Z.to_nat (hi - 1 - lo))) by lia.
  cbn [seq map]. f_equal; [lia|].
  rewrite <- seq_shift, map_map. apply map_ext. intros k. lia.
Qed.

(** *** Response extractor *)

Lemma first_bracket_cases (t : str) :
  (first_bracket t = -1 /\ (ch "{" ∉ t) /\ (ch "[" ∉ t)) \/
  earliest_bracket t (first_bracket t).
Proof.
  unfold first_bracket, earliest_bracket.
  pose proof (find_lower (ch "{") t) as Hb. pose proof (find_lower (ch "[") t) as Hk.
  pose proof (find_present (ch "{") t) as Pb. pose proof (find_present (ch "[") t) as Pk.
  cbn [List.filter].
  destruct (Z.eqb_spec (find (ch "{") t) (-1)) as [Eb|Eb];
    destruct (Z.eqb_spec (find (ch "[") t) (-1)) as [Ek|Ek]; cbn [negb min_default fold_left].
  - left. split; [reflexivity|]. split; by apply find_absent.
  - right. destruct Pk as [P1 P2]; [lia|]. split; [lia|]. split; [eauto|].
    intros j c Hj Hc. split; intros ->.
    + apply find_absent in Eb. apply Eb. eapply list_elem_of_lookup_2; eauto.
    + by apply (P2 j).
  - right. destruct Pb as [P1 P2]; [lia|]. split; [lia|]. split; [eauto|].
    intros j c Hj Hc. split; intros ->.
    + by apply (P2 j).
    + apply find_absent in Ek. apply Ek. eapply list_elem_of_lookup_2; eauto.
  - right. destruct Pb as [B1 B2]; [lia|]. destruct Pk as [K1 K2]; [lia|].
    split; [lia|]. split.
    + destruct (Z.min_spec (find (ch "{") t) (find (ch "[") t)) as [[_ ->]|[_ ->]]; eauto.
    + intros j c Hj Hc. split; intros ->; [apply (B2 j) | apply (K2 j)]; auto; lia.
Qed.

Lemma earliest_bracket_unique (t : str) (a b : Z) :
  earliest_bracket t a -> earliest_bracket t b -> a = b.
Proof.
  intros (Ha & (ca & Hca & Hcca) & Hmina) (Hb & (cb & Hcb & Hccb) & Hminb).
  destruct (Z.lt_trichotomy a b) as [Hlt|[->|Hgt]]; [|reflexivity|].
  - exfalso. destruct (Hminb (Z.to_nat a) ca) as [H1 H2]; [lia|auto|]. tauto.
  - exfalso. destruct (Hmina (Z.to_nat b) cb) as [H1 H2]; [lia|auto|]. tauto.
Qed.

Lemma earliest_bracket_present (t : str) (a : Z) :
  earliest_bracket t a -> ~ ((ch "{" ∉ t) /\ (ch "[" ∉ t)).
Proof.
  intros (_ & (c & Hc & [->| ->]) & _) [H1 H2];
    [apply H1 | apply H2]; eapply list_elem_of_lookup_2; eauto.
Qed.

Lemma scan_ends_none (L : JsonLib) (t : str) (lo : Z) (n : nat) (hi : Z) :
  Z.to_nat (hi - lo) = n ->
  (forall e, lo < e <= hi -> json_loads L (slice lo e t) = None) ->
  scan_ends L t lo (range_down hi lo) = None.
Proof.
  revert hi. induction n as [|n IH]; intros hi Hn Hall.
  - rewrite range_down_nil by lia. reflexivity.
  - rewrite range_down_cons by lia. cbn [scan_ends].
    rewrite (Hall hi) by lia. apply IH; [lia|]. intros e He. apply Hall. lia.
Qed.

Lemma scan_ends_first (L : JsonLib) (t : str) (lo e : Z) (n : nat) (hi : Z) :
  Z.to_nat (hi - lo) = n ->
  lo < e <= hi ->
  is_Some (json_loads L (slice lo e t)) ->
  (forall e', e < e' <= hi -> json_loads L (slice lo e' t) = None) ->
  scan_ends L t lo (range_down hi lo) = Some (slice lo e t).
Proof.
  revert hi. induction n as [|n IH]; intros hi Hn He Hok Hall; [lia|].
  rewrite range_down_cons by lia. cbn [scan_ends].
  destruct (Z.eq_dec e hi) as [->|Hne].
  - destruct Hok as [v ->]. reflexivity.
  - rewrite (Hall hi) by lia. apply IH; [lia|lia|exact Hok|].
    intros e' He'. apply Hall. lia.
Qed.

(** Among the ends in a range either none parses or there is a greatest one
    that does. *)
Lemma greatest_parsing_end (L : JsonLib) (t : str) (lo : Z) (n : nat) (hi : Z) :
  Z.to_nat (hi - lo) = n ->
  (forall e, lo < e <= hi -> json_loads L (slice lo e t) = None) \/
  (exists e, lo < e <= hi /\ is_Some (json_loads L (slice lo e t)) /\
             forall e', e < e' <= hi -> json_loads L (slice lo e' t) = None).
Proof.
  revert hi. induction n as [|n IH]; intros hi Hn.
  - left. intros e He. lia.
  - destruct (json_loads L (slice lo hi t)) as [v|] eqn:Ehi.
    + right. exists hi. split; [lia|]. split; [rewrite Ehi; eauto|]. intros e' He'. lia.
    + destruct (IH (hi - 1)) as [Hnone|(e & He & Hok & Hall)]; [lia| |].
      * left. intros e He. destruct (Z.eq_dec e hi) as [->|]; [exact Ehi|]. apply Hnone. lia.
      * right. exists e. split; [lia|]. split; [exact Hok|].
        intros e' He'. destruct (Z.eq_dec e' hi) as [->|]; [exact Ehi|]. apply Hall. lia.
Qed.

Lemma clean_json_extracted (L : JsonLib) (text : str) :
  extracted L (strip text) (clean_json L text).
Proof.
  unfold clean_json. set (t := strip text).
  destruct (json_loads L t) as [v|] eqn:Et.
  - apply extracted_whole. rewrite Et. eauto.
  - destruct (first_bracket_cases t) as [(E & Hb & Hk)|Hear].
    + rewrite E. cbn. by apply extracted_no_bracket.
    + assert ((first_bracket t =? -1) = false) as ->.
      { apply Z.eqb_neq. destruct Hear as [H _]. lia. }
      destruct (greatest_parsing_end L t (first_bracket t)
                  (Z.to_nat (len t - first_bracket t)) (len t) eq_refl)
        as [Hnone|(e & He & Hok & Hall)].
      * rewrite (scan_ends_none L t _ _ _ eq_refl Hnone).
        by eapply extracted_no_candidate.
      * rewrite (scan_ends_first L t _ e _ _ eq_refl He Hok Hall).
        by eapply extracted_snippet.
Qed.

Lemma extracted_functional (L : JsonLib) (t a b : str) :
  extracted L t a -> extracted L t b -> a = b.
Proof.
  intros Ha Hb.
  destruct Ha as [Ha|Ha Hb1 Hb2|sa ea Ha Hsa Hea Hoka Halla|sa Ha Hsa Halla];
    destruct Hb as [Hb|Hb Hc1 Hc2|sb eb Hb Hsb Heb Hokb Hallb|sb Hb Hsb Hallb];
    try reflexivity;
    try (rewrite ?Ha, ?Hb in *;
         match goal with H : is_Some None |- _ => destruct H; discriminate end);
    try (exfalso; eapply earliest_bracket_present; eauto; fail).
  - assert (sa = sb) as -> by (eapply earliest_bracket_unique; eauto).
    destruct (Z.lt_trichotomy ea eb) as [Hlt|[->|Hgt]]; [|reflexivity|].
    + rewrite (Halla eb) in Hokb by lia. destruct Hokb; discriminate.
    + rewrite (Hallb ea) in Hoka by lia. destruct Hoka; discriminate.
  - assert (sa = sb) as -> by (eapply earliest_bracket_unique; eauto).
    rewrite (Hallb ea) in Hoka by lia. destruct Hoka; discriminate.
  - assert (sa = sb) as -> by (eapply earliest_bracket_unique; eauto).
    rewrite (Halla eb) in Hokb by lia. destruct Hokb; discriminate.
Qed.

(** C2, as the code has it: on the trimmed text [t] of the input,
    [clean_json] returns [t] when [t] parses as a whole, when [t] holds
    neither bracket, or when no candidate parses; otherwise it returns the
    longest [t[start:end]] that parses, [start] being the earliest bracket;
    nothing else satisfies this description.  On the reference model of
    [json.loads], the sentence with the greeting gives the text of the
    object followed by one blank, which decodes to the object, and the
    sentence without JSON comes back unchanged and does not parse. *)
Theorem clean_json_spec :
  (forall (L : JsonLib) (text : str),
      extracted L (strip text) (clean_json L text) /\
      forall r, extracted L (strip text) r -> r = clean_json L text) /\
  (forall float_repr,
      let L := python_json float_repr in
      clean_json L (quoted "Sure! {'a':1} thanks") = quoted "{'a':1} " /\
      json_loads L (quoted "{'a':1} ") = Some (JObj [(lit "a", JInt 1)]) /\
      clean_json L (lit "not json at all") = lit "not json at all" /\
      json_loads L (lit "not json at all") = None /\
      clean_json L (quoted "[{'a':1},{'b':2}]") = quoted "[{'a':1},{'b':2}]").
Proof.
  split.
  - intros L text. split; [apply clean_json_extracted|].
    intros r Hr. eapply extracted_functional; [exact Hr | apply clean_json_extracted].
  - intros float_repr L. subst L. repeat split; vm_compute; reflexivity.
Qed.

(** C2, as stated, fails: a text with leading blanks and no bracket is not
    returned unmodified, the blanks are gone. *)
Lemma clean_json_returns_trimmed_text :
  let L := python_json (fun _ _ _ => []) in
  let text := lit "  not json at all" in
  json_loads L (strip text) = None /\
  first_bracket (strip text) = -1 /\
  clean_json L text = lit "not json at all" /\
  clean_json L text <> text.
Proof.
  repeat split; try (vm_compute; reflexivity).
  vm_compute. discriminate.
Qed.

(** *** Retry controller *)

Lemma request_run (L : JsonLib) (W : World) (st : State) :
  request L W st =
  (match attempt_result L (remote W (calls st)) with
   | Some v => inl v
   | None => inr (match remote W (calls st) with
                  | Raises => RemoteError
                  | Replies _ => JSONDecodeError
                  end)
   end, after_success st).
Proof.
  unfold request, bind, chat_create, attempt_result, after_success.
  destruct (remote W (calls st)) as [|c]; [reflexivity|].
  destruct (json_loads L (clean_json L c)); reflexivity.
Qed.

Lemma tag_card_loop_ok (L : JsonLib) (W : World) (card : Card) (a : Z)
    (rest : list Z) (st : State) (v : json) :
  attempt_result L (remote W (calls st)) = Some v ->
  tag_card_loop L W card (a :: rest) st = (inl v, after_success st).
Proof.
  intros H. cbn [tag_card_loop]. unfold try_except. rewrite request_run, H. reflexivity.
Qed.

Lemma tag_card_loop_fail (L : JsonLib) (W : World) (card : Card) (a : Z)
    (rest : list Z) (st : State) :
  attempt_result L (remote W (calls st)) = None ->
  tag_card_loop L W card (a :: rest) st =
  tag_card_loop L W card rest (after_failure W (name card) a st).
Proof.
  intros H. cbn [tag_card_loop]. unfold try_except. rewrite request_run, H.
  reflexivity.
Qed.




(** The loop never raises and leaves the files alone. *)
Lemma tag_card_loop_returns (L : JsonLib) (W : World) (card : Card) (attempts : list Z) :
  forall st, exists v,
    fst (tag_card_loop L W card attempts st) = inl v /\
    files (snd (tag_card_loop L W card attempts st)) = files st /\
    journal (snd (tag_card_loop L W card attempts st)) = journal st.
Proof.
  induction attempts as [|a rest IH]; intros st.
  - exists JNull. cbn. auto.
  - destruct (attempt_result L (remote W (calls st))) as [v|] eqn:E.
    + exists v. rewrite (tag_card_loop_ok _ _ _ _ _ _ _ E). cbn. auto.
    + rewrite (tag_card_loop_fail _ _ _ _ _ _ E).
      destruct (IH (after_failure W (name card) a st)) as (v & H1 & H2 & H3).
      exists v. rewrite H1, H2, H3. cbn. auto.
Qed.




(** *** Colour filter *)

(** C9: with the target set {B, R}, the colour filter keeps a card whose
    identity is {B, R} and drops the identities {B} and {B, R, W}; a card
    without identity is kept exactly when the colourless flag is set.  The
    filter is applied, since the colour list is not empty. *)
Theorem color_filter_exact_match (args : Args) (card : Card) :
  list_to_set (colors args) = ({[lit "B"; lit "R"]} : gset str) ->
  let identity : gset str := list_to_set (color_identity card) in
  (identity = {[lit "B"; lit "R"]} -> color_match args card = true) /\
  (identity = {[lit "B"]} -> color_match args card = false) /\
  (identity = {[lit "B"; lit "R"; lit "W"]} -> color_match args card = false) /\
  (identity = ∅ -> color_match args card = colorless args) /\
  (forall cards, color_filter args cards = List.filter (color_match args) cards).
Proof.
  intros Htarget identity. subst identity.
  assert (HB : lit "B" = [66%N]) by reflexivity.
  assert (HR : lit "R" = [82%N]) by reflexivity.
  assert (HW : lit "W" = [87%N]) by reflexivity.
  rewrite HB, HR, HW in *.
  assert (Hne : ({[ [66%N]; [82%N] ]} : gset str) <> ∅).
  { intros E. assert (H : [66%N] ∈ (∅ : gset str)) by (rewrite <- E; set_solver).
    set_solver. }
  assert (Hfilter : forall cards,
             color_filter args cards = List.filter (color_match args) cards).
  { intros cards. unfold color_filter.
    assert (Hcol : colors args <> []).
    { intros E. rewrite E in Htarget. cbn in Htarget. apply Hne. auto. }
    rewrite (bool_decide_eq_false_2 _ Hcol). reflexivity. }
  split; [|split; [|split; [|split; [|exact Hfilter]]]];
    unfold color_match; rewrite Htarget.
  - intros ->. rewrite (bool_decide_eq_false_2 _ Hne), andb_false_r.
    rewrite (bool_decide_eq_true_2 _ eq_refl). reflexivity.
  - intros ->.
    assert (H1 : ({[ [66%N] ]} : gset str) <> ∅).
    { intros E. assert (H : [66%N] ∈ (∅ : gset str)) by (rewrite <- E; set_solver).
      set_solver. }
    assert (H2 : ({[ [66%N] ]} : gset str) <> {[ [66%N]; [82%N] ]}).
    { intros E. assert (H : [82%N] ∈ ({[ [66%N] ]} : gset str)) by (rewrite E; set_solver).
      apply elem_of_singleton in H. discriminate. }
    rewrite (bool_decide_eq_false_2 _ H1), (bool_decide_eq_false_2 _ H2), !andb_false_r.
    reflexivity.
  - intros ->.
    assert (H1 : ({[ [66%N]; [82%N]; [87%N] ]} : gset str) <> ∅).
    { intros E. assert (H : [66%N] ∈ (∅ : gset str)) by (rewrite <- E; set_solver).
      set_solver. }
    assert (H2 : ({[ [66%N]; [82%N]; [87%N] ]} : gset str) <> {[ [66%N]; [82%N] ]}).
    { intros E.
      assert (H : [87%N] ∈ ({[ [66%N]; [82%N] ]} : gset str)) by (rewrite <- E; set_solver).
      apply elem_of_union in H as [H|H]; apply elem_of_singleton in H; discriminate. }
    rewrite (bool_decide_eq_false_2 _ H1), (bool_decide_eq_false_2 _ H2), !andb_false_r.
    reflexivity.
  - intros ->.
    rewrite (bool_decide_eq_true_2 _ eq_refl), andb_true_r.
    assert (H2 : (∅ : gset str) <> {[ [66%N]; [82%N] ]}) by (intros E; apply Hne; auto).
    rewrite (bool_decide_eq_false_2 _ H2), andb_false_r.
    destruct (colorless args); reflexivity.
Qed.

Lemma color_filter_exact_match_witness :
  color_match (with_colors "BR" false) (sample_card "Rakdos" "RB") = true /\
  color_match (with_colors "BR" false) (sample_card "Swamp" "B") = false /\
  color_match (with_colors "BR" false) (sample_card "Mardu" "RWB") = false /\
  color_match (with_colors "BR" false) (sample_card "Sol Ring" "") = false /\
  color_match (with_colors "BR" true) (sample_card "Sol Ring" "") = true.
Proof.
  assert (H : forall cl, list_to_set (colors (with_colors "BR" cl))
                         = ({[lit "B"; lit "R"]} : gset str)).
  { intros cl. vm_compute. reflexivity. }
  split; [|split; [|split; [|split]]].
  - destruct (color_filter_exact_match _ (sample_card "Rakdos" "RB") (H false))
      as (Hbr & _).
    apply Hbr. vm_compute. reflexivity.
  - destruct (color_filter_exact_match _ (sample_card "Swamp" "B") (H false))
      as (_ & Hb & _).
    apply Hb. vm_compute. reflexivity.
  - destruct (color_filter_exact_match _ (sample_card "Mardu" "RWB") (H false))
      as (_ & _ & Hbrw & _).
    apply Hbrw. vm_compute. reflexivity.
  - destruct (color_filter_exact_match _ (sample_card "Sol Ring" "") (H false))
      as (_ & _ & _ & Hnone & _).
    apply Hnone. vm_compute. reflexivity.
  - destruct (color_filter_exact_match _ (sample_card "Sol Ring" "") (H true))
      as (_ & _ & _ & Hnone & _).
    apply Hnone. vm_compute. reflexivity.
Defined.

(** *** Resume *)

Lemma id_in_spec (id : str) (processed : list json) :
  id_in id processed = true <-> JStr id ∈ processed.
Proof.
  unfold id_in. rewrite existsb_exists. split.
  - intros (v & Hin & Hv). destruct v; try discriminate.
    unfold str_eqb in Hv. apply bool_decide_eq_true in Hv. subst.
    by apply list_elem_of_In.
  - intros Hin. exists (JStr id). split; [by apply list_elem_of_In|].
    unfold str_eqb. by apply bool_decide_eq_true.
Qed.

Lemma resume_scan_corrupt (L : JsonLib) (lines : list str) (line : str) :
  line ∈ lines -> strip line <> [] -> json_loads L (strip line) = None ->
  forall processed, resume_scan L lines processed = None.
Proof.
  intros Hin Hne Hbad. induction lines as [|l rest IH]; intros processed.
  - by apply not_elem_of_nil in Hin.
  - cbn [resume_scan]. apply elem_of_cons in Hin as [<-|Hin].
    + destruct (strip line) eqn:E; [congruence|]. by rewrite Hbad.
    + destruct (strip l) eqn:E; [by apply IH|].
      destruct (json_loads L (n :: l0)) as [[]|]; try reflexivity.
      destruct (hashable _); [by apply IH | reflexivity].
Qed.

Lemma recorded_cons_blank (L : JsonLib) (l : str) (rest : list str) (id : str) :
  strip l = [] -> recorded L (l :: rest) id <-> recorded L rest id.
Proof.
  intros Hblank. split.
  - intros (line & Hin & Hne & Hrec). apply elem_of_cons in Hin as [->|Hin];
      [congruence|]. exists line. auto.
  - intros (line & Hin & Hne & Hrec). exists line. split; [by right|auto].
Qed.

Lemma recorded_cons_line (L : JsonLib) (l : str) (rest : list str) (id : str)
    (kvs : list (str * json)) :
  strip l <> [] -> json_loads L (strip l) = Some (JObj kvs) ->
  recorded L (l :: rest) id <->
  default JNull (dict_get (lit "oracle_id") kvs) = JStr id \/ recorded L rest id.
Proof.
  intros Hne Hload. split.
  - intros (line & Hin & Hne' & (kvs' & Hload' & Hid)).
    apply elem_of_cons in Hin as [->|Hin].
    + left. rewrite Hload in Hload'. by injection Hload' as <-.
    + right. exists line. split; [exact Hin|]. split; [exact Hne'|]. by exists kvs'.
  - intros [Hid|(line & Hin & Hne' & Hrec)].
    + exists l. split; [by left|]. split; [exact Hne|]. by exists kvs.
    + exists line. split; [by right|auto].
Qed.

Lemma resume_scan_readable (L : JsonLib) (lines : list str) :
  Forall (readable_line L) lines ->
  forall processed, exists ids,
    resume_scan L lines processed = Some (processed ++ ids) /\
    forall id, JStr id ∈ ids <-> recorded L lines id.
Proof.
  induction lines as [|l rest IH]; intros Hall processed.
  - exists []. rewrite app_nil_r. split; [reflexivity|].
    intros id. split; [intros H; by apply not_elem_of_nil in H|].
    intros (line & H & _). by apply not_elem_of_nil in H.
  - apply Forall_cons in Hall as [Hl Hrest]. cbn [resume_scan].
    destruct (strip l) as [|c t] eqn:E.
    + destruct (IH Hrest processed) as (ids & Hscan & Hids).
      exists ids. split; [exact Hscan|]. intros id.
      by rewrite Hids, recorded_cons_blank.
    + destruct Hl as [Hblank|(id0 & (kvs & Hload & Hid) & Hhash)]; [congruence|].
      rewrite E in Hload. rewrite Hload, Hid, Hhash.
      destruct (IH Hrest (processed ++ [id0])) as (ids & Hscan & Hids).
      exists (id0 :: ids). split.
      * rewrite Hscan, <- app_assoc. reflexivity.
      * intros id. rewrite elem_of_cons, Hids.
        rewrite (recorded_cons_line L l rest id kvs); [|congruence|by rewrite E].
        rewrite Hid. split; (intros [H|H]; [left; congruence | by right]).
Qed.

(** C8: when a non-blank line of the existing output file does not parse,
    the scan raises, the exception is caught around the whole scan, and the
    cards go on unfiltered by the identifiers read so far; the files are not
    touched. *)
Theorem resume_scan_aborts_on_corrupt_line (L : JsonLib) (args : Args)
    (input_cards : list Card) (st : State) (lines : list str) (line : str) :
  resume args = true ->
  files st !! path_of (output args) = Some lines ->
  line ∈ lines ->
  strip line <> [] ->
  json_loads L (strip line) = None ->
  resume_scan L lines [] = None /\
  prepare L args input_cards st = (inl (apply_filters args input_cards), st).
Proof.
  intros Hres Hfile Hin Hne Hbad.
  pose proof (resume_scan_corrupt L lines line Hin Hne Hbad []) as Hscan.
  split; [exact Hscan|].
  unfold prepare, resume_or_clear. by rewrite Hres, Hfile, Hscan.
Qed.

Lemma resume_scan_aborts_on_corrupt_line_witness :
  prepare sample_json (run_args 0 0 true) [sample_card "A" "B"; sample_card "B" "R"]
    (state_with_files damaged_output)
  = (inl [sample_card "A" "B"; sample_card "B" "R"], state_with_files damaged_output).
Proof.
  apply (resume_scan_aborts_on_corrupt_line sample_json (run_args 0 0 true)
           [sample_card "A" "B"; sample_card "B" "R"]
           (state_with_files damaged_output)
           [quoted "{'oracle_id': 'A', 'tags': []}"; quoted "{'oracle_id': 'B', 'ta"]
           (quoted "{'oracle_id': 'B', 'ta")).
  - reflexivity.
  - vm_compute. reflexivity.
  - right. left.
  - vm_compute. discriminate.
  - vm_compute. reflexivity.
Defined.

Lemma batch_starts_nil (step : Z) : 0 < step -> range_step (len (@nil Card)) step = [].
Proof.
  intros H. unfold range_step, len. cbn [length].
  replace ((Z.of_nat 0 + step - 1) / step) with 0; [reflexivity|].
  symmetry. apply Z.div_small. lia.
Qed.

(** C5, as the code has it.  With resume enabled and an existing output file
    (the file named by the output argument) whose non-blank lines are all
    JSON objects with a hashable identifier, the cards kept for processing
    are exactly the filtered input cards whose [oracle_id] is not recorded
    in that file, and nothing is written; when every card is recorded there,
    no card is processed, no remote call is made and no file changes.  With
    resume disabled that file is emptied at the start of the run. *)
Theorem resume_skips_recorded_cards (L : JsonLib) (W : World) (args : Args)
    (input_cards : list Card) (st : State) :
  (resume args = true ->
   forall lines,
     files st !! path_of (output args) = Some lines ->
     Forall (readable_line L) lines ->
     exists kept,
       prepare L args input_cards st = (inl kept, st) /\
       (forall card, card ∈ kept <->
                     card ∈ apply_filters args input_cards /\
                     ~ recorded L lines (oracle_id card)) /\
       ((forall card, card ∈ apply_filters args input_cards ->
                      recorded L lines (oracle_id card)) ->
        kept = [] /\
        exists k, main L W args input_cards st = (inl ([], k), st))) /\
  (resume args = false ->
   exists st',
     prepare L args input_cards st = (inl (apply_filters args input_cards), st') /\
     files st' !! path_of (output args) = Some [] /\
     (forall p, p <> path_of (output args) -> files st' !! p = files st !! p) /\
     calls st' = calls st /\ journal st' = journal st).
Proof.
  split.
  - intros Hres lines Hfile Hall.
    destruct (resume_scan_readable L lines Hall []) as (ids & Hscan & Hids).
    cbn [app] in Hscan.
    set (kept := List.filter (fun card => negb (id_in (oracle_id card) ids))
                   (apply_filters args input_cards)).
    assert (Hprep : prepare L args input_cards st = (inl kept, st)).
    { unfold prepare, resume_or_clear. by rewrite Hres, Hfile, Hscan. }
    assert (Hkept : forall card, card ∈ kept <->
                      card ∈ apply_filters args input_cards /\
                      ~ recorded L lines (oracle_id card)).
    { intros card. unfold kept. rewrite list_elem_of_In, filter_In, <- list_elem_of_In.
      rewrite <- Hids, <- id_in_spec.
      destruct (id_in (oracle_id card) ids); cbn; intuition congruence. }
    exists kept. split; [exact Hprep|]. split; [exact Hkept|].
    intros Hevery.
    assert (Hnil : kept = []).
    { destruct kept as [|card rest] eqn:E; [reflexivity|]. exfalso.
      assert (Hc : card ∈ card :: rest) by left.
      apply Hkept in Hc as [Hc1 Hc2]. apply Hc2, Hevery, Hc1. }
    split; [exact Hnil|].
    unfold main, bind. rewrite Hprep, Hnil.
    unfold dispatch. destruct (use_async args); [by eexists|].
    destruct (Z.ltb_spec 0 (batch_size args)) as [Hb|Hb]; [|by eexists].
    rewrite batch_starts_nil by exact Hb. by eexists.
  - intros Hres.
    exists (set_files (fs_truncate (path_of (output args))) st).
    unfold prepare, resume_or_clear. rewrite Hres. split; [reflexivity|].
    cbn [files set_files calls journal]. unfold fs_truncate.
    split; [apply lookup_insert_eq|]. split; [|auto].
    intros p Hp. by apply lookup_insert_ne.
Qed.

Lemma resume_skips_recorded_cards_witness :
  (exists kept,
      prepare sample_json (run_args 0 0 true)
        [sample_card "A" ""; sample_card "B" ""; sample_card "C" ""]
        (state_with_files partial_output)
      = (inl kept, state_with_files partial_output) /\
      (forall card, card ∈ kept <->
         card ∈ apply_filters (run_args 0 0 true)
                  [sample_card "A" ""; sample_card "B" ""; sample_card "C" ""] /\
         ~ recorded sample_json
             [quoted "{'oracle_id': 'A', 'tags': []}"; lit "  ";
              quoted "{'oracle_id': 'B', 'tags': []}"] (oracle_id card))) /\
  (exists st',
      prepare sample_json (run_args 0 0 false) [sample_card "A" ""]
        (state_with_files partial_output)
      = (inl (apply_filters (run_args 0 0 false) [sample_card "A" ""]), st') /\
      files st' !! path_of (output (run_args 0 0 false)) = Some []).
Proof.
  split.
  - destruct (resume_skips_recorded_cards sample_json dead_world (run_args 0 0 true)
                [sample_card "A" ""; sample_card "B" ""; sample_card "C" ""]
                (state_with_files partial_output)) as [Hres _].
    destruct (Hres eq_refl
                [quoted "{'oracle_id': 'A', 'tags': []}"; lit "  ";
                 quoted "{'oracle_id': 'B', 'tags': []}"])
      as (kept & Hprep & Hkept & _).
    + vm_compute. reflexivity.
    + repeat apply Forall_cons_2; [| left; vm_compute; reflexivity | | apply Forall_nil_2].
      * right. exists (JStr (lit "A")). split; [|reflexivity].
        exists [(lit "oracle_id", JStr (lit "A")); (lit "tags", JArr [])].
        split; vm_compute; reflexivity.
      * right. exists (JStr (lit "B")). split; [|reflexivity].
        exists [(lit "oracle_id", JStr (lit "B")); (lit "tags", JArr [])].
        split; vm_compute; reflexivity.
    + exists kept. split; [exact Hprep | exact Hkept].
  - destruct (resume_skips_recorded_cards sample_json dead_world (run_args 0 0 false)
                [sample_card "A" ""] (state_with_files partial_output)) as [_ Hclear].
    destruct (Hclear eq_refl) as (st' & Hprep & Hempty & _).
    exists st'. split; [exact Hprep | exact Hempty].
Defined.

(** C5, as stated, fails.  A card whose attempts all fail leaves no record:
    the second run, with resume, processes it again (five more remote
    calls).  A card whose record carries no [oracle_id] is processed again
    and written a second time. *)
Lemma resume_rerun_processes_again :
  (let cards := [sample_card "A" ""] in
   let first := main sample_json dead_world (run_args 0 0 false) cards fresh_state in
   let second := main sample_json dead_world (run_args 0 0 true) cards (snd first) in
   fst first = inl (cards, Some sink_start) /\
   fst second = inl (cards, Some sink_start) /\
   calls (snd first) = 5%nat /\
   calls (snd second) = 10%nat) /\
  (let cards := [sample_card "A" ""] in
   let W := constant_world "{'tags': ['ramp']}" in
   let first := main sample_json W (run_args 0 0 false) cards fresh_state in
   let second := main sample_json W (run_args 0 0 true) cards (snd first) in
   content (files (snd first)) (path_of sample_output) = [quoted "{'tags': ['ramp']}"] /\
   fst second = inl (cards, Some (count_success sink_start)) /\
   content (files (snd second)) (path_of sample_output)
   = [quoted "{'tags': ['ramp']}"; quoted "{'tags': ['ramp']}"]).
Proof.
  split.
  - repeat split; vm_compute; reflexivity.
  - repeat split; vm_compute; reflexivity.
Qed.

(** *** Restarts and file splitting, on sample runs *)

(** C6 on a sample: two cards and a threshold of one record per file.
    Run twice without resume: the second run empties the base file only, so
    the record of the first run is still in the [_part2] file and the second
    run adds its own copy after it.  Run once and then again with resume:
    the scan reads the base file only, card B is processed again and its
    record lands in the base file, next to the one of card A and with a
    copy still in [_part2]. *)
Theorem fresh_run_keeps_stale_part_file :
  let cards := [sample_card "A" ""; sample_card "B" ""] in
  let first := main sample_json alternating_world (run_args 0 1 false) cards fresh_state in
  (content (files (snd first)) (path_of sample_output) = [quoted "{'oracle_id': 'A'}"] /\
   content (files (snd first)) sample_part2 = [quoted "{'oracle_id': 'B'}"]) /\
  (let second :=
     main sample_json alternating_world (run_args 0 1 false) cards (snd first) in
   content (files (snd second)) (path_of sample_output) = [quoted "{'oracle_id': 'A'}"] /\
   content (files (snd second)) sample_part2
   = [quoted "{'oracle_id': 'B'}"; quoted "{'oracle_id': 'B'}"]) /\
  (let resumed :=
     main sample_json (constant_world "{'oracle_id': 'B'}") (run_args 0 1 true) cards
       (snd first) in
   fst resumed = inl ([sample_card "B" ""], Some (count_success sink_start)) /\
   content (files (snd resumed)) (path_of sample_output)
   = [quoted "{'oracle_id': 'A'}"; quoted "{'oracle_id': 'B'}"] /\
   content (files (snd resumed)) sample_part2 = [quoted "{'oracle_id': 'B'}"]).
Proof.
  repeat split; vm_compute; reflexivity.
Qed.

(** C4 on the sample of the specification: threshold 2, five successful
    cards.  The sequential mode fills three files with 2, 2 and 1 records.
    The batch mode, with all five cards in one batch, decides once before
    the batch and writes the five records to the first file. *)
Theorem batch_split_exceeds_threshold :
  (let W := constant_world "{'oracle_id': 'X'}" in
   let r := main sample_json W (run_args 0 2 false) five_cards fresh_state in
   length (content (files (snd r)) (path_of sample_output)) = 2%nat /\
   length (content (files (snd r)) sample_part2) = 2%nat /\
   length (content (files (snd r)) sample_part3) = 1%nat) /\
  (let W := constant_world
              "[{'oracle_id': 'A'}, {'oracle_id': 'B'}, {'oracle_id': 'C'}, {'oracle_id': 'D'}, {'oracle_id': 'E'}]" in
   let r := main sample_json W (run_args 5 2 false) five_cards fresh_state in
   fst r = inl (five_cards, Some {| successful_count := 5; current_file_index := 0;
                                    current_file_count := 5 |}) /\
   length (content (files (snd r)) (path_of sample_output)) = 5%nat /\
   files (snd r) !! sample_part2 = None).
Proof.
  split; repeat split; vm_compute; reflexivity.
Qed.


(** C10, as stated, fails in batch mode: a reply that decodes to [null] is
    not returned as a success, it is retried until the attempts run out. *)
Lemma batch_null_reply_is_retried :
  let r := tag_cards_batch_sync sample_json (constant_world "null")
             [sample_card "A" ""] default_retries fresh_state in
  json_loads sample_json (clean_json sample_json (lit "null")) = Some JNull /\
  fst r = inl (JArr [JNull]) /\
  calls (snd r) = 5%nat /\
  length (slept (snd r)) = 5%nat.
Proof.
  repeat split; vm_compute; reflexivity.
Qed.

(** *** The admission gate *)

Lemma filter_insert_len (f : task -> bool) (l : list task) (i : nat) (t t' : task) :
  l !! i = Some t ->
  len (List.filter f (<[i := t']> l))
  = len (List.filter f l) - (if f t then 1 else 0) + (if f t' then 1 else 0).
Proof.
  unfold len. revert i. induction l as [|x l IH]; intros i Hi; [discriminate|].
  destruct i as [|i]; cbn in Hi.
  - injection Hi as ->. cbn.
    destruct (f t), (f t'); cbn [length]; lia.
  - change (<[S i := t']> (x :: l)) with (x :: <[i := t']> l).
    cbn [List.filter]. specialize (IH i Hi).
    destruct (f x), (f t), (f t'); cbn [length]; lia.
Qed.

Lemma calling_le_holding (l : list task) :
  len (List.filter is_calling l) <= len (List.filter holds_slot l).
Proof.
  unfold len. induction l as [|x l IH]; cbn [List.filter]; [lia|].
  destruct x; cbn [is_calling holds_slot length]; lia.
Qed.

Lemma finish_tasks (L : JsonLib) (args : Args) (i : nat) (v : json) (s : Loop) :
  tasks (finish L args i v s) = <[i := Finished v]> (tasks s) /\
  sem (finish L args i v s) = sem s + 1 /\
  admitted (finish L args i v s) = admitted s.
Proof. unfold finish. destruct (truthy v); auto. Qed.

Lemma gate_ok_step (L : JsonLib) (args : Args) (capacity : Z) (s s' : Loop) :
  step L args s s' -> gate_ok capacity s -> gate_ok capacity s'.
Proof.
  intros Hstep [Hpos Hsum]. unfold gate_ok.
  destruct Hstep as [s i Hi Hfree|s i a o Hi|s i a Hi].
  - cbn [sem tasks]. rewrite (filter_insert_len _ _ _ _ _ Hi). cbn. lia.
  - destruct (attempt_result L o) as [v|].
    + destruct (finish_tasks L args i v s) as (-> & -> & _).
      rewrite (filter_insert_len _ _ _ _ _ Hi). cbn. lia.
    + cbn [set_task sem tasks]. rewrite (filter_insert_len _ _ _ _ _ Hi). cbn. lia.
  - destruct (a + 1 <? default_retries).
    + cbn [set_task sem tasks]. rewrite (filter_insert_len _ _ _ _ _ Hi). cbn. lia.
    + destruct (finish_tasks L args i JNull s) as (-> & -> & _).
      rewrite (filter_insert_len _ _ _ _ _ Hi). cbn. lia.
Qed.

(** Replacing a started task by a started task. *)
Lemma started_insert (l : list task) (i : nat) (t t' : task) :
  l !! i = Some t -> t <> Created -> t' <> Created ->
  forall j, (exists u, <[i := t']> l !! j = Some u /\ u <> Created) <->
            (exists u, l !! j = Some u /\ u <> Created).
Proof.
  intros Hi Ht Ht' j. destruct (decide (i = j)) as [<-|Hne].
  - rewrite list_lookup_insert_eq by (by eapply lookup_lt_Some).
    split; intros _; eauto.
  - by rewrite list_lookup_insert_ne.
Qed.

Lemma admitted_ok_step (L : JsonLib) (args : Args) (s s' : Loop) :
  step L args s s' -> admitted_ok s -> admitted_ok s'.
Proof.
  intros Hstep [Hnd Hadm]. unfold admitted_ok.
  destruct Hstep as [s i Hi Hfree|s i a o Hi|s i a Hi].
  - cbn [admitted tasks]. split.
    + apply NoDup_app. split; [exact Hnd|]. split; [|apply NoDup_singleton].
      intros j Hj Hj'. apply list_elem_of_singleton in Hj' as ->.
      apply Hadm in Hj as (t & Ht & Hne). congruence.
    + intros j. rewrite elem_of_app, list_elem_of_singleton, Hadm.
      destruct (decide (i = j)) as [<-|Hne].
      * rewrite list_lookup_insert_eq by (by eapply lookup_lt_Some).
        split; [intros _; eauto | auto].
      * rewrite list_lookup_insert_ne by done. split; [intros [H|H]; [exact H|congruence] | auto].
  - assert (Hs : Calling a <> Created) by discriminate.
    destruct (attempt_result L o) as [v|].
    + destruct (finish_tasks L args i v s) as (-> & _ & ->).
      split; [exact Hnd|]. intros j. rewrite Hadm. symmetry.
      by apply (started_insert _ _ (Calling a)).
    + cbn [set_task admitted tasks]. split; [exact Hnd|]. intros j. rewrite Hadm.
      symmetry. by apply (started_insert _ _ (Calling a)).
  - assert (Hs : Sleeping a <> Created) by discriminate.
    destruct (a + 1 <? default_retries).
    + cbn [set_task admitted tasks]. split; [exact Hnd|]. intros j. rewrite Hadm.
      symmetry. by apply (started_insert _ _ (Sleeping a)).
    + destruct (finish_tasks L args i JNull s) as (-> & _ & ->).
      split; [exact Hnd|]. intros j. rewrite Hadm. symmetry.
      by apply (started_insert _ _ (Sleeping a)).
Qed.

Lemma tasks_length_step (L : JsonLib) (args : Args) (s s' : Loop) :
  step L args s s' -> length (tasks s') = length (tasks s).
Proof.
  intros Hstep. destruct Hstep as [s i Hi Hfree|s i a o Hi|s i a Hi].
  - cbn [tasks]. apply length_insert.
  - destruct (attempt_result L o) as [v|].
    + destruct (finish_tasks L args i v s) as (-> & _). apply length_insert.
    + cbn [set_task tasks]. apply length_insert.
  - destruct (a + 1 <? default_retries).
    + cbn [set_task tasks]. apply length_insert.
    + destruct (finish_tasks L args i JNull s) as (-> & _). apply length_insert.
Qed.

Lemma created_holds_no_slot (cards : list Card) :
  List.filter holds_slot (map (fun _ => Created) cards) = [].
Proof. induction cards as [|c r IH]; [reflexivity | exact IH]. Qed.

Lemma reachable_invariant (L : JsonLib) (args : Args) (P : Loop -> Prop) (s0 : Loop) :
  P s0 ->
  (forall s s', step L args s s' -> P s -> P s') ->
  forall s, reachable L args s0 s -> P s.
Proof.
  intros H0 Hstep. unfold reachable. apply rtc_ind_r; [exact H0|].
  intros s1 s2 _ Hs IH. by apply (Hstep s1).
Qed.

(** C3: with a capacity of at least one the semaphore is created and one
    task per card exists before any of them runs; in every state the event
    loop can reach there is still one task per card, at most [capacity]
    remote calls are in flight, and no task was let through the gate twice:
    the tasks let in are exactly those that have started. *)
Theorem async_gate_bound (L : JsonLib) (args : Args) (cards : list Card)
    (fs : gmap filename (list str)) :
  1 <= concurrency args ->
  exists s0,
    async_start args cards fs = Some s0 /\
    tasks s0 = map (fun _ => Created) cards /\
    forall s, reachable L args s0 s ->
      length (tasks s) = length cards /\
      in_flight s <= concurrency args /\
      NoDup (admitted s) /\
      (forall i, i ∈ admitted s <-> exists t, tasks s !! i = Some t /\ t <> Created).
Proof.
  intros Hcap. unfold async_start.
  destruct (Z.ltb_spec (concurrency args) 0) as [Hneg|_]; [lia|].
  eexists. split; [reflexivity|]. split; [reflexivity|].
  intros s Hreach.
  assert (Hinv : length (tasks s) = length cards /\
                 gate_ok (concurrency args) s /\ admitted_ok s).
  { revert s Hreach. apply reachable_invariant.
    - cbn [tasks sem admitted]. split; [by rewrite length_map|]. split.
      + unfold gate_ok. cbn [tasks sem]. rewrite created_holds_no_slot.
        unfold len. cbn. lia.
      + split; [apply NoDup_nil_2|]. intros i. split.
        * intros H. by apply not_elem_of_nil in H.
        * intros (t & Ht & Hne). cbn [tasks] in Ht.
          rewrite list_lookup_fmap in Ht.
          destruct (cards !! i); cbn in Ht; congruence.
    - intros s1 s2 Hs (Hlen & Hgate & Hadm). split.
      + by rewrite (tasks_length_step _ _ _ _ Hs).
      + split; [by eapply gate_ok_step | by eapply admitted_ok_step]. }
  destruct Hinv as (Hlen & [Hpos Hsum] & Hnd & Hadm).
  split; [exact Hlen|]. split; [|split; [exact Hnd | exact Hadm]].
  unfold in_flight. pose proof (calling_le_holding (tasks s)). lia.
Qed.

Lemma async_gate_bound_witness :
  exists s0,
    async_start default_args five_cards ∅ = Some s0 /\
    tasks s0 = map (fun _ => Created) five_cards /\
    forall s, reachable sample_json default_args s0 s ->
      length (tasks s) = length five_cards /\
      in_flight s <= concurrency default_args /\
      NoDup (admitted s) /\
      (forall i, i ∈ admitted s <-> exists t, tasks s !! i = Some t /\ t <> Created).
Proof.
  apply (async_gate_bound sample_json default_args five_cards ∅).
  cbn. lia.
Defined.

(** *** The output store *)

Lemma lines_for_app (L : JsonLib) (p : filename) (r1 r2 : list (filename * json)) :
  lines_for L p (r1 ++ r2) = lines_for L p r1 ++ lines_for L p r2.
Proof. unfold lines_for. by rewrite List.filter_app, map_app. Qed.

Lemma lines_for_one (L : JsonLib) (p q : filename) (v : json) :
  lines_for L q [(p, v)] = if bool_decide (p = q) then [json_dumps L v] else [].
Proof. unfold lines_for. cbn. by destruct (bool_decide (p = q)). Qed.

Lemma content_append (p q : filename) (line : str) (fs : gmap filename (list str)) :
  content (fs_append p line fs) q
  = content fs q ++ (if bool_decide (p = q) then [line] else []).
Proof.
  unfold content, fs_append. rewrite lookup_insert.
  destruct (decide (p = q)) as [->|Hne].
  - by rewrite bool_decide_eq_true_2.
  - rewrite bool_decide_eq_false_2 by done. by rewrite app_nil_r.
Qed.

Lemma content_touch (p q : filename) (fs : gmap filename (list str)) :
  content (fs_touch p fs) q = content fs q.
Proof.
  unfold content, fs_touch. rewrite lookup_insert.
  destruct (decide (p = q)) as [->|Hne]; reflexivity.
Qed.

Lemma appended_refl (L : JsonLib) (fs : gmap filename (list str)) : appended L fs fs [].
Proof. intros p. unfold lines_for. cbn. by rewrite app_nil_r. Qed.

Lemma appended_trans (L : JsonLib) (fs1 fs2 fs3 : gmap filename (list str))
    (r1 r2 : list (filename * json)) :
  appended L fs1 fs2 r1 -> appended L fs2 fs3 r2 -> appended L fs1 fs3 (r1 ++ r2).
Proof. intros H1 H2 p. by rewrite H2, H1, lines_for_app, app_assoc. Qed.

Lemma appended_append (L : JsonLib) (p : filename) (v : json)
    (fs : gmap filename (list str)) :
  appended L fs (fs_append p (json_dumps L v) fs) [(p, v)].
Proof. intros q. by rewrite content_append, lines_for_one. Qed.


Lemma extends_same (L : JsonLib) (st st' : State) :
  files st' = files st -> journal st' = journal st -> extends L st st' [].
Proof.
  intros Hf Hj. split; [by rewrite Hj, app_nil_r|]. rewrite Hf. apply appended_refl.
Qed.

Lemma extends_trans (L : JsonLib) (st1 st2 st3 : State) (r1 r2 : list (filename * json)) :
  extends L st1 st2 r1 -> extends L st2 st3 r2 -> extends L st1 st3 (r1 ++ r2).
Proof.
  intros [J1 A1] [J2 A2]. split; [by rewrite J2, J1, app_assoc|].
  by eapply appended_trans.
Qed.

Lemma write_record_extends (L : JsonLib) (p : filename) (v : json) (st : State) :
  fst (write_record L p v st) = inl tt /\
  extends L st (snd (write_record L p v st)) [(p, v)].
Proof.
  split; [reflexivity|]. split; [reflexivity|]. cbn [snd write_record files].
  apply appended_append.
Qed.

Lemma tag_card_sync_extends (L : JsonLib) (W : World) (card : Card) (retries : Z)
    (st : State) :
  exists v st',
    tag_card_sync L W card retries st = (inl v, st') /\ extends L st st' [].
Proof.
  unfold tag_card_sync.
  destruct (tag_card_loop_returns L W card (range retries) st) as (v & Hv & Hf & Hj).
  destruct (tag_card_loop L W card (range retries) st) as [res st'] eqn:E.
  cbn [fst snd] in *. subst res. exists v, st'. split; [reflexivity|].
  by apply extends_same.
Qed.

(** The sequential loop never raises; it writes, in order, the truthy ones
    among one result per card. *)
Lemma sequential_loop_extends (L : JsonLib) (W : World) (args : Args)
    (cards : list Card) :
  forall k st, exists k' st' results recs,
    sequential_loop L W args cards k st = (inl k', st') /\
    length results = length cards /\
    map snd recs = List.filter truthy results /\
    extends L st st' recs.
Proof.
  induction cards as [|card rest IH]; intros k st.
  - exists k, st, [], []. split; [reflexivity|]. split; [reflexivity|].
    split; [reflexivity|]. by apply extends_same.
  - cbn [sequential_loop]. unfold bind at 1.
    destruct (tag_card_sync_extends L W card default_retries st) as (v & st1 & -> & E1).
    unfold bind at 1. destruct (truthy v) eqn:Tv.
    + unfold write_result, bind at 1.
      destruct (write_record_extends L
                  (get_output_filename (output args)
                     (current_file_index (switch_file (split_size args) k))) v st1)
        as [W1 W2].
      destruct (write_record L _ v st1) as [res st2] eqn:E2. cbn [fst snd] in W1, W2.
      subst res. cbn [ret].
      destruct (IH (count_success (switch_file (split_size args) k)) st2)
        as (k' & st' & results & recs & -> & Hlen & Hmap & Hext).
      set (p := get_output_filename (output args)
                  (current_file_index (switch_file (split_size args) k))) in *.
      exists k', st', (v :: results), ((p, v) :: recs).
      split; [reflexivity|]. split; [cbn; by rewrite Hlen|].
      split; [cbn [map snd List.filter]; by rewrite Tv, Hmap|].
      change ((p, v) :: recs) with ([] ++ [(p, v)] ++ recs).
      eapply extends_trans; [exact E1|]. eapply extends_trans; [exact W2 | exact Hext].
    + cbn [ret].
      destruct (IH k st1) as (k' & st' & results & recs & -> & Hlen & Hmap & Hext).
      exists k', st', (v :: results), recs.
      split; [reflexivity|]. split; [cbn; by rewrite Hlen|].
      split; [cbn [List.filter]; by rewrite Tv|].
      change recs with ([] ++ recs). by eapply extends_trans.
Qed.

Lemma batch_request_run (L : JsonLib) (W : World) (st : State) :
  snd (batch_request L W st) = after_success st.
Proof.
  unfold batch_request, bind, chat_create, after_success.
  destruct (remote W (calls st)) as [|c]; [reflexivity|].
  destruct (json_loads L (clean_json L c)) as [[]|]; reflexivity.
Qed.

(** The batch controller never raises and leaves the files alone. *)
Lemma tag_cards_batch_loop_returns (L : JsonLib) (W : World) (cards : list Card)
    (attempts : list Z) :
  forall st, exists v,
    fst (tag_cards_batch_loop L W cards attempts st) = inl v /\
    files (snd (tag_cards_batch_loop L W cards attempts st)) = files st /\
    journal (snd (tag_cards_batch_loop L W cards attempts st)) = journal st.
Proof.
  induction attempts as [|a rest IH]; intros st.
  - eexists. cbn. auto.
  - cbn [tag_cards_batch_loop]. unfold try_except.
    pose proof (batch_request_run L W st) as Hrun.
    destruct (batch_request L W st) as [[v|e] st1]; cbn [snd] in Hrun; subst st1.
    + exists v. cbn. auto.
    + unfold bind, stderr_write, backoff, bind, random_random, time_sleep.
      cbn [fst snd].
      match goal with |- context [tag_cards_batch_loop L W cards rest ?x] =>
        destruct (IH x) as (v & H1 & H2 & H3) end.
      exists v. rewrite H1, H2, H3. cbn. auto.
Qed.



(** *** The records of the event loop *)

Lemma finished_lookup_insert (l : list task) (i j : nat) (t t' : task) (v : json) :
  l !! i = Some t -> (forall w, t <> Finished w) ->
  l !! j = Some (Finished v) -> <[i := t']> l !! j = Some (Finished v).
Proof.
  intros Hi Ht Hj. destruct (decide (i = j)) as [->|Hne]; [|by rewrite list_lookup_insert_ne].
  rewrite Hi in Hj. injection Hj as ->. by destruct (Ht v).
Qed.

Lemma records_ok_tasks (L : JsonLib) (fs0 : gmap filename (list str)) (s s' : Loop)
    (i : nat) (t t' : task) :
  tasks s !! i = Some t -> (forall w, t <> Finished w) ->
  tasks s' = <[i := t']> (tasks s) -> store s' = store s -> records s' = records s ->
  records_ok L fs0 s -> records_ok L fs0 s'.
Proof.
  intros Hi Ht Htasks Hstore Hrec (Happ & Hall & Hnd). unfold records_ok, written.
  rewrite Hstore, Hrec, Htasks. split; [exact Happ|]. split; [|exact Hnd].
  eapply Forall_impl; [exact Hall|]. intros r [Hr1 Hr2]. split; [exact Hr1|].
  by eapply finished_lookup_insert.
Qed.

Lemma records_ok_finish (L : JsonLib) (args : Args) (fs0 : gmap filename (list str))
    (s : Loop) (i : nat) (t : task) (v : json) :
  tasks s !! i = Some t -> (forall w, t <> Finished w) ->
  records_ok L fs0 s -> records_ok L fs0 (finish L args i v s).
Proof.
  intros Hi Ht Hok. unfold finish. destruct (truthy v) eqn:Tv.
  - destruct Hok as (Happ & Hall & Hnd). unfold records_ok, written.
    cbn [store records tasks].
    set (p := get_output_filename (output args)
                (current_file_index (switch_file (split_size args) (sink s)))).
    rewrite !map_app. cbn [map fst snd]. split; [|split].
    + eapply appended_trans; [exact Happ | apply appended_append].
    + apply Forall_app. split.
      * eapply Forall_impl; [exact Hall|]. intros r [Hr1 Hr2]. split; [exact Hr1|].
        by eapply finished_lookup_insert.
      * apply Forall_singleton. cbn [fst snd]. split; [exact Tv|].
        apply list_lookup_insert_eq. by eapply lookup_lt_Some.
    + apply NoDup_app. split; [exact Hnd|]. split; [|apply NoDup_singleton].
      intros j Hj Hj'. apply list_elem_of_singleton in Hj' as ->.
      apply list_elem_of_fmap in Hj as (r & Hr & Hin).
      rewrite Forall_forall in Hall. destruct (Hall r Hin) as [_ Hfin].
      rewrite <- Hr, Hi in Hfin. injection Hfin as ->. by destruct (Ht (snd r)).
  - eapply (records_ok_tasks L fs0 s _ i t); eauto.
Qed.

Lemma records_ok_step (L : JsonLib) (args : Args) (fs0 : gmap filename (list str))
    (s s' : Loop) :
  step L args s s' -> records_ok L fs0 s -> records_ok L fs0 s'.
Proof.
  intros Hstep Hok. destruct Hstep as [s i Hi Hfree|s i a o Hi|s i a Hi].
  - eapply (records_ok_tasks L fs0 s _ i Created); eauto; discriminate.
  - destruct (attempt_result L o) as [v|].
    + eapply (records_ok_finish L args fs0 s i (Calling a)); eauto; discriminate.
    + eapply (records_ok_tasks L fs0 s _ i (Calling a)); eauto; discriminate.
  - destruct (a + 1 <? default_retries).
    + eapply (records_ok_tasks L fs0 s _ i (Sleeping a)); eauto; discriminate.
    + eapply (records_ok_finish L args fs0 s i (Sleeping a)); eauto; discriminate.
Qed.


Lemma sample_loop_reachable :
  reachable sample_json default_args sample_loop_start sample_loop_written.
Proof.
  unfold reachable. eapply rtc_l; [|eapply rtc_l; [|apply rtc_refl]].
  - apply (step_acquire sample_json default_args sample_loop_start 0%nat).
    + reflexivity.
    + reflexivity.
  - apply (step_attempt sample_json default_args sample_loop_admitted 0%nat 0
             (Replies (quoted "{'oracle_id': 'A'}"))).
    reflexivity.
Defined.


(** *** Falsy results *)

Lemma batch_request_result (L : JsonLib) (W : World) (st : State) :
  fst (batch_request L W st) =
  match attempt_result L (remote W (calls st)) with
  | None => inr (match remote W (calls st) with
                 | Raises => RemoteError
                 | Replies _ => JSONDecodeError
                 end)
  | Some (JArr l) => inl (JArr l)
  | Some (JObj kvs) => inl (default (JArr []) (dict_get (lit "results") kvs))
  | Some _ => inr AttributeError
  end.
Proof.
  unfold batch_request, bind, chat_create, attempt_result.
  destruct (remote W (calls st)) as [|c]; [reflexivity|].
  destruct (json_loads L (clean_json L c)) as [[]|]; reflexivity.
Qed.

Lemma write_batch_falsy (L : JsonLib) (p : filename) (items : list json) (k : Sink)
    (st : State) :
  Forall (fun r => truthy r = false) items ->
  write_batch L p items k st = (inl k, st).
Proof.
  induction 1 as [|r rest Hr _ IH]; [reflexivity|].
  cbn [write_batch]. by rewrite Hr.
Qed.

(** C10, as the code has it.  The six values are falsy.  In the sequential
    and asynchronous modes a reply that decodes to a falsy value ends the
    retry loop at once (one call, no delay) and is then dropped: no line, no
    record, no counter moves.  In batch mode a reply that decodes to the
    empty object or the empty array is returned at once as an empty list of
    results, while [null], [0], [false] and the empty string have no [get]:
    the attempt counts as failed and is retried; falsy items of a batch are
    neither written nor counted. *)
Theorem falsy_result_is_dropped (L : JsonLib) (W : World) (args : Args) :
  Forall (fun v => truthy v = false)
    [JObj []; JArr []; JNull; JInt 0; JBool false; JStr []] /\
  (forall card rest k st v,
      attempt_result L (remote W (calls st)) = Some v ->
      truthy v = false ->
      tag_card_sync L W card default_retries st = (inl v, after_success st) /\
      sequential_loop L W args (card :: rest) k st
      = sequential_loop L W args rest k (after_success st)) /\
  (forall s i attempt o v,
      tasks s !! i = Some (Calling attempt) ->
      attempt_result L o = Some v ->
      truthy v = false ->
      step L args s (finish L args i v s) /\
      tasks (finish L args i v s) = <[i := Finished v]> (tasks s) /\
      store (finish L args i v s) = store s /\
      records (finish L args i v s) = records s /\
      sink (finish L args i v s) = sink s) /\
  (forall cards st v,
      attempt_result L (remote W (calls st)) = Some v ->
      v = JObj [] \/ v = JArr [] ->
      tag_cards_batch_sync L W cards default_retries st
      = (inl (JArr []), after_success st)) /\
  (forall cards attempt rest st v,
      attempt_result L (remote W (calls st)) = Some v ->
      v = JNull \/ v = JInt 0 \/ v = JBool false \/ v = JStr [] ->
      tag_cards_batch_loop L W cards (attempt :: rest) st
      = tag_cards_batch_loop L W cards rest (after_failure W [] attempt st)) /\
  (forall p items k st,
      Forall (fun r => truthy r = false) items ->
      write_batch L p items k st = (inl k, st)).
Proof.
  split; [repeat constructor|]. split; [|split; [|split; [|split]]].
  - intros card rest k st v Hv Tv.
    assert (Htag : tag_card_sync L W card default_retries st = (inl v, after_success st)).
    { unfold tag_card_sync. change (range default_retries) with [0; 1; 2; 3; 4].
      by apply tag_card_loop_ok. }
    split; [exact Htag|].
    cbn [sequential_loop]. unfold bind at 1. rewrite Htag.
    unfold bind at 1. rewrite Tv. reflexivity.
  - intros s i attempt o v Hi Hv Tv. split.
    + pose proof (step_attempt L args s i attempt o Hi) as Hstep.
      by rewrite Hv in Hstep.
    + unfold finish. rewrite Tv. auto.
  - intros cards st v Hv Hcase.
    unfold tag_cards_batch_sync. change (range default_retries) with [0; 1; 2; 3; 4].
    cbn [tag_cards_batch_loop]. unfold try_except.
    pose proof (batch_request_run L W st) as Hrun.
    pose proof (batch_request_result L W st) as Hres. rewrite Hv in Hres.
    destruct (batch_request L W st) as [res st1]. cbn [fst snd] in Hrun, Hres.
    subst st1 res. by destruct Hcase as [-> | ->].
  - intros cards attempt rest st v Hv Hcase.
    cbn [tag_cards_batch_loop]. unfold try_except.
    pose proof (batch_request_run L W st) as Hrun.
    pose proof (batch_request_result L W st) as Hres. rewrite Hv in Hres.
    destruct (batch_request L W st) as [res st1]. cbn [fst snd] in Hrun, Hres.
    subst st1 res. by destruct Hcase as [-> | [-> | [-> | ->]]].
  - intros p items k st. apply write_batch_falsy.
Qed.

Lemma falsy_result_is_dropped_witness :
  tag_card_sync sample_json (constant_world "{}") (sample_card "A" "")
    default_retries fresh_state
  = (inl (JObj []), after_success fresh_state) /\
  sequential_loop sample_json (constant_world "{}") default_args
    [sample_card "A" ""] sink_start fresh_state
  = (inl sink_start, after_success fresh_state) /\
  tag_cards_batch_sync sample_json (constant_world "{}") [sample_card "A" ""]
    default_retries fresh_state
  = (inl (JArr []), after_success fresh_state) /\
  tag_cards_batch_loop sample_json (constant_world "0") [sample_card "A" ""] [4]
    fresh_state
  = (inl (JArr [JNull]), after_failure (constant_world "0") [] 4 fresh_state).
Proof.
  destruct (falsy_result_is_dropped sample_json (constant_world "{}") default_args)
    as (_ & Hseq & _ & Hbatch & _).
  destruct (falsy_result_is_dropped sample_json (constant_world "0") default_args)
    as (_ & _ & _ & _ & Hretry & _).
  split; [|split; [|split]].
  - apply (Hseq (sample_card "A" "") [] sink_start fresh_state (JObj [])); reflexivity.
  - apply (Hseq (sample_card "A" "") [] sink_start fresh_state (JObj [])); reflexivity.
  - apply (Hbatch [sample_card "A" ""] fresh_state (JObj [])); [reflexivity | by left].
  - apply (Hretry [sample_card "A" ""] 4 [] fresh_state (JInt 0));
      [reflexivity | right; by left].
Defined.

(** *** File splitting in the sequential and asynchronous modes *)

Lemma lit_inj (a b : string) : lit a = lit b -> a = b.
Proof.
  unfold lit. intros H.
  rewrite <- (string_of_list_ascii_of_string a), <- (string_of_list_ascii_of_string b).
  f_equal. revert H. generalize (list_ascii_of_string a) (list_ascii_of_string b).
  intros la. induction la as [|x la IH]; intros [|y lb] H; try discriminate; [reflexivity|].
  cbn [map] in H. injection H as Hxy Hrest. f_equal; [|by apply IH].
  by rewrite <- (ascii_N_embedding x), <- (ascii_N_embedding y), Hxy.
Qed.

Lemma str_of_int_inj (a b : Z) : 0 < a -> 0 < b -> str_of_int a = str_of_int b -> a = b.
Proof.
  intros Ha Hb H. apply lit_inj in H.
  apply DecimalZ.to_int_inj.
  assert (Hsome : Some (Z.to_int a) = Some (Z.to_int b)); [|by injection Hsome].
  destruct a as [|pa|pa]; try lia. destruct b as [|pb|pb]; try lia.
  rewrite <- (NilZero.isi (Z.to_int (Z.pos pa))), <- (NilZero.isi (Z.to_int (Z.pos pb))).
  - by rewrite H.
  - cbn. intros E. injection E as E. by apply DecimalPos.Unsigned.to_uint_nonnil in E.
  - discriminate.
  - cbn. intros E. injection E as E. by apply DecimalPos.Unsigned.to_uint_nonnil in E.
  - discriminate.
Qed.

(** Distinct indices give distinct files. *)
Lemma get_output_filename_inj (out : Path) (i j : Z) :
  0 <= i -> 0 <= j -> get_output_filename out i = get_output_filename out j -> i = j.
Proof.
  intros Hi Hj. unfold get_output_filename, path_of.
  destruct (Z.eqb_spec i 0) as [->|Hi0]; destruct (Z.eqb_spec j 0) as [->|Hj0];
    [reflexivity| | |]; intros H; apply (f_equal snd) in H; cbn [snd] in H.
  - exfalso. apply app_inv_head in H. apply (f_equal length) in H.
    rewrite !length_app in H. change (length (lit "_part")) with 5%nat in H. lia.
  - exfalso. apply app_inv_head in H. apply (f_equal length) in H.
    rewrite !length_app in H. change (length (lit "_part")) with 5%nat in H. lia.
  - apply app_inv_head in H. apply app_inv_head in H. apply app_inv_tail in H.
    apply str_of_int_inj in H; lia.
Qed.

Lemma count_for_snoc (p q : filename) (v : json) (recs : list (filename * json)) :
  count_for p (recs ++ [(q, v)])
  = count_for p recs + (if bool_decide (q = p) then 1 else 0).
Proof.
  unfold count_for, len. rewrite List.filter_app, length_app. cbn [List.filter fst].
  destruct (bool_decide (q = p)); cbn [length]; lia.
Qed.

Lemma split_ok_start (out : Path) (split : Z) :
  0 < split -> split_ok out split sink_start [].
Proof.
  intros H. unfold split_ok, count_for, len. cbn. repeat split; intros; lia.
Qed.

Lemma split_ok_write (out : Path) (split : Z) (k : Sink) (v : json)
    (recs : list (filename * json)) :
  0 < split ->
  split_ok out split k recs ->
  split_ok out split (count_success (switch_file split k))
    (recs ++ [(get_output_filename out (current_file_index (switch_file split k)), v)]).
Proof.
  intros Hs (Hidx & Hcnt & Hcur & Hbefore & Hother).
  unfold switch_file. destruct (Z.ltb_spec 0 split) as [_|]; [|lia].
  destruct (Z.leb_spec split (current_file_count k)) as [Hfull|Hroom];
    cbn [andb]; unfold split_ok, count_success;
    cbn [current_file_index current_file_count].
  - assert (Hfresh : forall j, 0 <= j <= current_file_index k ->
              get_output_filename out (current_file_index k + 1)
              <> get_output_filename out j).
    { intros j Hj E. apply get_output_filename_inj in E; lia. }
    split; [lia|]. split; [lia|]. split; [|split].
    + rewrite count_for_snoc, bool_decide_eq_true_2 by done.
      rewrite (Hother _ Hfresh). lia.
    + intros j Hj. rewrite count_for_snoc.
      rewrite bool_decide_eq_false_2 by (apply Hfresh; lia).
      destruct (Z.eq_dec j (current_file_index k)) as [->|Hne].
      * rewrite Hcur. lia.
      * specialize (Hbefore j). lia.
    + intros p Hp. rewrite count_for_snoc.
      rewrite bool_decide_eq_false_2 by (intros E; apply (Hp (current_file_index k + 1)); [lia|done]).
      rewrite Hother; [lia|]. intros j Hj. apply Hp. lia.
  - split; [lia|]. split; [lia|]. split; [|split].
    + rewrite count_for_snoc, bool_decide_eq_true_2 by done. lia.
    + intros j Hj. rewrite count_for_snoc.
      rewrite bool_decide_eq_false_2
        by (intros E; apply get_output_filename_inj in E; lia).
      specialize (Hbefore j). lia.
    + intros p Hp. rewrite count_for_snoc.
      rewrite bool_decide_eq_false_2 by (intros E; apply (Hp (current_file_index k)); [lia|done]).
      rewrite Hother; [lia|]. intros j Hj. apply Hp. lia.
Qed.

(** A file is one of the first [n + 1] output files, or none of them. *)
Lemma output_file_cases (out : Path) (p : filename) (n : nat) :
  (exists j, 0 <= j <= Z.of_nat n /\ p = get_output_filename out j) \/
  (forall j, 0 <= j <= Z.of_nat n -> p <> get_output_filename out j).
Proof.
  induction n as [|n IH].
  - destruct (decide (p = get_output_filename out 0)) as [E|Hne].
    + left. exists 0. split; [lia | exact E].
    + right. intros j Hj. by replace j with 0 by lia.
  - destruct IH as [(j & Hj & E)|Hnone].
    + left. exists j. split; [lia | exact E].
    + destruct (decide (p = get_output_filename out (Z.of_nat (S n)))) as [E|Hne].
      * left. exists (Z.of_nat (S n)). split; [lia | exact E].
      * right. intros j Hj. destruct (Z.eq_dec j (Z.of_nat (S n))) as [->|Hne'];
          [exact Hne | apply Hnone; lia].
Qed.

Lemma split_ok_bound (out : Path) (split : Z) (k : Sink) (recs : list (filename * json)) :
  0 < split -> split_ok out split k recs -> forall p, count_for p recs <= split.
Proof.
  intros Hs (Hidx & Hcnt & Hcur & Hbefore & Hother) p.
  destruct (output_file_cases out p (Z.to_nat (current_file_index k)))
    as [(j & Hj & ->)|Hnone].
  - destruct (Z.eq_dec j (current_file_index k)) as [->|Hne].
    + rewrite Hcur. lia.
    + apply Hbefore. lia.
  - rewrite Hother; [lia|]. intros j Hj. apply Hnone. lia.
Qed.

Lemma lines_for_length (L : JsonLib) (p : filename) (recs : list (filename * json)) :
  len (lines_for L p recs) = count_for p recs.
Proof. unfold lines_for, count_for, len. by rewrite length_map. Qed.

Lemma sequential_loop_split (L : JsonLib) (W : World) (args : Args) (cards : list Card) :
  0 < split_size args ->
  forall k st recs0,
    split_ok (output args) (split_size args) k recs0 ->
    exists k' st' recs,
      sequential_loop L W args cards k st = (inl k', st') /\
      journal st' = journal st ++ recs /\
      split_ok (output args) (split_size args) k' (recs0 ++ recs).
Proof.
  intros Hs. induction cards as [|card rest IH]; intros k st recs0 Hok.
  - exists k, st, []. rewrite !app_nil_r. auto.
  - cbn [sequential_loop]. unfold bind at 1.
    destruct (tag_card_sync_extends L W card default_retries st)
      as (v & st1 & -> & [J1 _]).
    rewrite app_nil_r in J1. unfold bind at 1. destruct (truthy v).
    + unfold write_result, bind at 1, write_record. cbn [ret].
      set (p := get_output_filename (output args)
                  (current_file_index (switch_file (split_size args) k))).
      match goal with |- context [sequential_loop L W args rest ?k1 ?s1] =>
        destruct (IH k1 s1 (recs0 ++ [(p, v)])) as (k' & st' & recs & -> & J & Hok')
      end.
      { by apply split_ok_write. }
      exists k', st', ((p, v) :: recs). split; [reflexivity|].
      cbn [journal] in J. rewrite J, J1, <- !app_assoc in *. auto.
    + cbn [ret]. destruct (IH k st1 recs0 Hok) as (k' & st' & recs & -> & J & Hok').
      exists k', st', recs. rewrite J, J1. auto.
Qed.

(** In the sequential mode a run gives no file more than the threshold. *)
Lemma sequential_split_bound (L : JsonLib) (W : World) (args : Args)
    (cards : list Card) (st : State) :
  0 < split_size args ->
  exists k' st' recs,
    sequential_loop L W args cards sink_start st = (inl k', st') /\
    extends L st st' recs /\
    forall p, count_for p recs <= split_size args /\
              len (content (files st') p)
              = len (content (files st) p) + count_for p recs.
Proof.
  intros Hs.
  destruct (sequential_loop_split L W args cards Hs sink_start st []
              (split_ok_start _ _ Hs)) as (k' & st' & recs & Hrun & J & Hok).
  destruct (sequential_loop_extends L W args cards sink_start st)
    as (k2 & st2 & results & recs2 & Hrun2 & _ & _ & Hext).
  rewrite Hrun in Hrun2. injection Hrun2 as <- <-.
  assert (recs2 = recs) as ->.
  { destruct Hext as [J2 _]. rewrite J in J2. by apply app_inv_head in J2. }
  exists k', st', recs. split; [exact Hrun|]. split; [exact Hext|].
  intros p. split; [by apply (split_ok_bound _ _ _ _ Hs Hok)|].
  destruct Hext as [_ Happ]. rewrite (Happ p). unfold len at 1.
  rewrite length_app, Nat2Z.inj_add. fold (len (content (files st) p)).
  fold (len (lines_for L p recs)). by rewrite lines_for_length.
Qed.

Lemma split_ok_step (L : JsonLib) (args : Args) (s s' : Loop) :
  0 < split_size args ->
  step L args s s' ->
  split_ok (output args) (split_size args) (sink s) (written s) ->
  split_ok (output args) (split_size args) (sink s') (written s').
Proof.
  intros Hs Hstep Hok.
  assert (Hfin : forall i v,
             split_ok (output args) (split_size args) (sink (finish L args i v s))
               (written (finish L args i v s))).
  { intros i v. unfold finish. destruct (truthy v); [|exact Hok].
    unfold written. cbn [sink records]. rewrite map_app. cbn [map fst snd].
    by apply split_ok_write. }
  destruct Hstep as [s i Hi Hfree|s i a o Hi|s i a Hi].
  - exact Hok.
  - destruct (attempt_result L o); [apply Hfin | exact Hok].
  - destruct (a + 1 <? default_retries); [exact Hok | apply Hfin].
Qed.

(** In the asynchronous mode no file ever holds more than the threshold of
    the records of the run. *)
Lemma async_split_bound (L : JsonLib) (args : Args) (cards : list Card)
    (fs : gmap filename (list str)) (s0 s : Loop) :
  0 < split_size args ->
  async_start args cards fs = Some s0 ->
  reachable L args s0 s ->
  forall p, count_for p (written s) <= split_size args.
Proof.
  intros Hs Hstart Hreach. unfold async_start in Hstart.
  destruct (concurrency args <? 0); [discriminate|]. injection Hstart as <-.
  apply (split_ok_bound (output args) (split_size args) (sink s)); [exact Hs|].
  revert s Hreach. apply reachable_invariant.
  - by apply split_ok_start.
  - intros s1 s2 Hstep. by apply (split_ok_step L args).
Qed.

(** ** Further properties of the code *)

(** *** Response extractor *)

Lemma lstrip_tail (s : str) : exists pre, s = pre ++ lstrip s.
Proof.
  induction s as [|c r [pre IH]]; [by exists []|].
  cbn [lstrip]. destruct (is_space c); [|by exists []].
  exists (c :: pre). cbn. by rewrite <- IH.
Qed.

Lemma rstrip_head (s : str) : exists post, s = rstrip s ++ post.
Proof.
  unfold rstrip. destruct (lstrip_tail (rev s)) as [pre H].
  exists (rev pre). rewrite <- rev_app_distr, <- H. by rewrite rev_involutive.
Qed.

Lemma strip_part (s : str) : part_of (strip s) s.
Proof.
  unfold strip. destruct (lstrip_tail s) as [pre H1].
  destruct (rstrip_head (lstrip s)) as [post H2].
  exists pre, post. by rewrite <- H2.
Qed.

Lemma slice_part (a b : Z) (s : str) : part_of (slice a b s) s.
Proof.
  unfold slice. exists (take (Z.to_nat a) s), (drop (Z.to_nat (b - a)) (drop (Z.to_nat a) s)).
  by rewrite !take_drop.
Qed.

Lemma part_of_refl (s : str) : part_of s s.
Proof. exists [], []. by rewrite app_nil_r. Qed.

Lemma part_of_trans (a b c : str) : part_of a b -> part_of b c -> part_of a c.
Proof.
  intros (p1 & q1 & ->) (p2 & q2 & ->). exists (p2 ++ p1), (q1 ++ q2).
  by rewrite <- !app_assoc.
Qed.

(** The extractor never invents text: whatever the [json] library, its
    result is a contiguous part of the input. *)
Theorem clean_json_returns_part_of_input (L : JsonLib) (text : str) :
  part_of (clean_json L text) text /\
  (length (clean_json L text) <= length text)%nat.
Proof.
  assert (H : part_of (clean_json L text) text).
  { apply (part_of_trans _ (strip text)); [|apply strip_part].
    destruct (clean_json_extracted L text); try apply part_of_refl. apply slice_part. }
  split; [exact H|]. destruct H as (pre & post & H).
  rewrite H at 2. rewrite !length_app. lia.
Qed.

(** The decoding that follows the extractor, [json.loads(clean_json(text))],
    succeeds exactly when the trimmed text parses or some slice from the
    earliest bracket does. *)
Theorem clean_json_parses_iff (L : JsonLib) (text : str) :
  let t := strip text in
  is_Some (json_loads L (clean_json L text)) <->
  is_Some (json_loads L t) \/
  (first_bracket t <> -1 /\
   exists e, first_bracket t < e <= len t /\
             is_Some (json_loads L (slice (first_bracket t) e t))).
Proof.
  intros t. unfold clean_json. fold t.
  destruct (json_loads L t) as [v|] eqn:Et.
  - rewrite Et. split; [intros _; left; eauto | eauto].
  - destruct (Z.eqb_spec (first_bracket t) (-1)) as [E|E].
    + rewrite Et. split.
      * intros [x Hx]. discriminate.
      * intros [[x Hx]|[Hne _]]; [discriminate | contradiction].
    + destruct (greatest_parsing_end L t (first_bracket t)
                  (Z.to_nat (len t - first_bracket t)) (len t) eq_refl)
        as [Hnone|(e & He & Hok & Hall)].
      * rewrite (scan_ends_none L t _ _ _ eq_refl Hnone), Et. split.
        -- intros [x Hx]. discriminate.
        -- intros [[x Hx]|(_ & e & He & [x Hx])]; [discriminate|].
           rewrite (Hnone e He) in Hx. discriminate.
      * rewrite (scan_ends_first L t _ e _ _ eq_refl He Hok Hall).
        split; [|intros _; exact Hok]. intros _. right. split; [exact E|]. eauto.
Qed.

(** *** Backoff *)








(** *** Output file names *)

(** The files of a run are told apart by their index: index 0 is the output
    path itself, every other index gives a file in the same directory whose
    name keeps the stem and the suffix, and two indices give the same file
    only when they are equal. *)
Theorem output_files_distinct (out : Path) (i j : Z) :
  0 <= i -> 0 <= j ->
  (get_output_filename out i = get_output_filename out j <-> i = j) /\
  get_output_filename out 0 = path_of out /\
  fst (get_output_filename out i) = parent out /\
  exists mid, snd (get_output_filename out i) = stem out ++ mid ++ suffix out.
Proof.
  intros Hi Hj. split; [|split; [reflexivity|split]].
  - split; [by apply get_output_filename_inj | by intros ->].
  - unfold get_output_filename, path_of. by destruct (i =? 0).
  - unfold get_output_filename, path_of. destruct (i =? 0); cbn [snd].
    + by exists [].
    + exists (lit "_part" ++ str_of_int (i + 1)). by rewrite <- !app_assoc.
Qed.

Lemma output_files_distinct_witness :
  get_output_filename sample_output 1 <> get_output_filename sample_output 10 /\
  get_output_filename sample_output 1 = sample_part2.
Proof.
  destruct (output_files_distinct sample_output 1 10) as ([H _] & _); [lia | lia |].
  split; [|reflexivity]. intros E. apply H in E. discriminate.
Defined.

(** *** Retry controller *)




(** *** Sequential mode *)

Lemma filter_sublist {A} (f : A -> bool) (l : list A) : sublist (List.filter f l) l.
Proof.
  induction l as [|x l IH]; cbn [List.filter]; [constructor|].
  destruct (f x); by constructor.
Qed.

Lemma apply_filters_sublist (args : Args) (cards : list Card) :
  sublist (apply_filters args cards) cards.
Proof.
  unfold apply_filters, color_filter.
  assert (H1 : sublist (List.filter has_oracle_text cards) cards) by apply filter_sublist.
  assert (H2 : sublist (if edh_only args
                        then List.filter edh_legal (List.filter has_oracle_text cards)
                        else List.filter has_oracle_text cards) cards).
  { destruct (edh_only args); [|exact H1]. etrans; [apply filter_sublist | exact H1]. }
  destruct (negb _ || colorless args); [|exact H2].
  etrans; [apply filter_sublist | exact H2].
Qed.

(** The preparation never raises, keeps a sub-sequence of the input, and
    makes no remote call and writes no record. *)
Lemma prepare_returns (L : JsonLib) (args : Args) (input_cards : list Card) (st : State) :
  exists cards st0,
    prepare L args input_cards st = (inl cards, st0) /\
    sublist cards input_cards /\
    calls st0 = calls st /\ journal st0 = journal st /\
    (resume args = true -> st0 = st).
Proof.
  unfold prepare, resume_or_clear.
  pose proof (apply_filters_sublist args input_cards) as Hsub.
  destruct (resume args).
  - destruct (files st !! path_of (output args)) as [lines|].
    + destruct (resume_scan L lines []) as [ids|].
      * eexists _, st. split; [reflexivity|]. split; [|auto].
        etrans; [apply filter_sublist | exact Hsub].
      * eexists _, st. auto.
    + eexists _, st. auto.
  - eexists _, _. split; [reflexivity|]. split; [exact Hsub|].
    split; [reflexivity|]. split; [reflexivity|]. discriminate.
Qed.




(** *** The layout of split output *)

Lemma split_exact_start (out : Path) (split : Z) :
  0 < split -> split_exact out split sink_start [].
Proof.
  intros H. unfold split_exact, count_for, len. cbn.
  repeat split; intros; try lia. congruence.
Qed.

Lemma split_exact_write (out : Path) (split : Z) (k : Sink) (v : json)
    (recs : list (filename * json)) :
  0 < split ->
  split_exact out split k recs ->
  split_exact out split (count_success (switch_file split k))
    (recs ++ [(get_output_filename out (current_file_index (switch_file split k)), v)]).
Proof.
  intros Hs (Hidx & Hcnt & Hpos & Hsucc & Hlen & Hcur & Hbefore & Hother).
  assert (Hlen' : forall x : filename * json, len (recs ++ [x]) = len recs + 1).
  { intros x. unfold len. rewrite length_app. cbn. lia. }
  unfold switch_file. destruct (Z.ltb_spec 0 split) as [_|]; [|lia].
  destruct (Z.leb_spec split (current_file_count k)) as [Hfull|Hroom];
    cbn [andb]; unfold split_exact, count_success;
    cbn [current_file_index current_file_count successful_count]; rewrite Hlen'.
  - assert (Hfresh : forall j, 0 <= j <= current_file_index k ->
              get_output_filename out (current_file_index k + 1)
              <> get_output_filename out j).
    { intros j Hj E. apply get_output_filename_inj in E; lia. }
    split; [lia|]. split; [lia|]. split; [lia|]. split; [lia|]. split; [lia|].
    split; [|split].
    + rewrite count_for_snoc, bool_decide_eq_true_2 by done.
      rewrite (Hother _ Hfresh). lia.
    + intros j Hj. rewrite count_for_snoc.
      rewrite bool_decide_eq_false_2 by (apply Hfresh; lia).
      destruct (Z.eq_dec j (current_file_index k)) as [->|Hne].
      * rewrite Hcur. lia.
      * specialize (Hbefore j). lia.
    + intros p Hp. rewrite count_for_snoc.
      rewrite bool_decide_eq_false_2
        by (intros E; apply (Hp (current_file_index k + 1)); [lia|done]).
      rewrite Hother; [lia|]. intros j Hj. apply Hp. lia.
  - split; [lia|]. split; [lia|]. split; [lia|]. split; [lia|]. split; [lia|].
    split; [|split].
    + rewrite count_for_snoc, bool_decide_eq_true_2 by done. lia.
    + intros j Hj. rewrite count_for_snoc.
      rewrite bool_decide_eq_false_2
        by (intros E; apply get_output_filename_inj in E; lia).
      specialize (Hbefore j). lia.
    + intros p Hp. rewrite count_for_snoc.
      rewrite bool_decide_eq_false_2
        by (intros E; apply (Hp (current_file_index k)); [lia|done]).
      rewrite Hother; [lia|]. intros j Hj. apply Hp. lia.
Qed.

(** The index of the last file is determined by the number of records. *)
Lemma split_exact_index (out : Path) (split : Z) (k : Sink)
    (recs : list (filename * json)) :
  0 < split -> split_exact out split k recs ->
  (recs = [] -> current_file_index k = 0) /\
  (recs <> [] -> current_file_index k = (len recs - 1) / split).
Proof.
  intros Hs (Hidx & Hcnt & Hpos & _ & Hlen & _). split.
  - intros ->. unfold len in Hlen. cbn in Hlen. nia.
  - intros Hne. specialize (Hpos Hne).
    apply (Z.div_unique _ _ _ (current_file_count k - 1)); lia.
Qed.

Lemma sequential_loop_layout (L : JsonLib) (W : World) (args : Args) (cards : list Card) :
  0 < split_size args ->
  forall k st recs0,
    split_exact (output args) (split_size args) k recs0 ->
    exists k' st' recs,
      sequential_loop L W args cards k st = (inl k', st') /\
      journal st' = journal st ++ recs /\
      split_exact (output args) (split_size args) k' (recs0 ++ recs).
Proof.
  intros Hs. induction cards as [|card rest IH]; intros k st recs0 Hok.
  - exists k, st, []. rewrite !app_nil_r. auto.
  - cbn [sequential_loop]. unfold bind at 1.
    destruct (tag_card_sync_extends L W card default_retries st)
      as (v & st1 & -> & [J1 _]).
    rewrite app_nil_r in J1. unfold bind at 1. destruct (truthy v).
    + unfold write_result, bind at 1, write_record. cbn [ret].
      set (p := get_output_filename (output args)
                  (current_file_index (switch_file (split_size args) k))).
      match goal with |- context [sequential_loop L W args rest ?k1 ?s1] =>
        destruct (IH k1 s1 (recs0 ++ [(p, v)])) as (k' & st' & recs & -> & J & Hok')
      end.
      { by apply split_exact_write. }
      exists k', st', ((p, v) :: recs). split; [reflexivity|].
      cbn [journal] in J. rewrite J, J1, <- !app_assoc in *. auto.
    + cbn [ret]. destruct (IH k st1 recs0 Hok) as (k' & st' & recs & -> & J & Hok').
      exists k', st', recs. rewrite J, J1. auto.
Qed.

Lemma split_exact_step (L : JsonLib) (args : Args) (s s' : Loop) :
  0 < split_size args ->
  step L args s s' ->
  split_exact (output args) (split_size args) (sink s) (written s) ->
  split_exact (output args) (split_size args) (sink s') (written s').
Proof.
  intros Hs Hstep Hok.
  assert (Hfin : forall i v,
             split_exact (output args) (split_size args) (sink (finish L args i v s))
               (written (finish L args i v s))).
  { intros i v. unfold finish. destruct (truthy v); [|exact Hok].
    unfold written. cbn [sink records]. rewrite map_app. cbn [map fst snd].
    by apply split_exact_write. }
  destruct Hstep as [s i Hi Hfree|s i a o Hi|s i a Hi].
  - exact Hok.
  - destruct (attempt_result L o); [apply Hfin | exact Hok].
  - destruct (a + 1 <? default_retries); [exact Hok | apply Hfin].
Qed.

(** With a threshold [N > 0], a sequential run that wrote [S] records, and
    the asynchronous run at any moment, has filled the files in order: the
    files before the last hold exactly [N] records of the run, the last one
    the remaining [S - index * N] (between 1 and [N] once [S > 0]), no other
    file any; the last index is [(S - 1) / N], and the success counter is
    [S]. *)
Theorem split_fills_files_in_order (L : JsonLib) (W : World) (args : Args)
    (cards : list Card) :
  0 < split_size args ->
  (forall st, exists k st' recs,
      sequential_loop L W args cards sink_start st = (inl k, st') /\
      journal st' = journal st ++ recs /\
      split_exact (output args) (split_size args) k recs /\
      (recs <> [] -> current_file_index k = (len recs - 1) / split_size args)) /\
  (forall fs s0 s,
      async_start args cards fs = Some s0 ->
      reachable L args s0 s ->
      split_exact (output args) (split_size args) (sink s) (written s) /\
      (written s <> [] ->
       current_file_index (sink s) = (len (written s) - 1) / split_size args)).
Proof.
  intros Hs. split.
  - intros st.
    destruct (sequential_loop_layout L W args cards Hs sink_start st []
                (split_exact_start _ _ Hs)) as (k & st' & recs & Hrun & J & Hok).
    cbn [app] in Hok. exists k, st', recs. split; [exact Hrun|]. split; [exact J|].
    split; [exact Hok|]. by apply (split_exact_index _ _ _ _ Hs Hok).
  - intros fs s0 s Hstart Hreach. unfold async_start in Hstart.
    destruct (concurrency args <? 0); [discriminate|]. injection Hstart as <-.
    assert (Hok : split_exact (output args) (split_size args) (sink s) (written s)).
    { revert s Hreach. apply reachable_invariant.
      - by apply split_exact_start.
      - intros s1 s2 Hstep. by apply (split_exact_step L args). }
    split; [exact Hok|]. by apply (split_exact_index _ _ _ _ Hs Hok).
Qed.

Lemma split_fills_files_in_order_witness :
  exists k st' recs,
    sequential_loop sample_json (constant_world "{'oracle_id': 'X'}")
      (run_args 0 2 false) five_cards sink_start fresh_state = (inl k, st') /\
    journal st' = journal fresh_state ++ recs /\
    split_exact (output (run_args 0 2 false)) (split_size (run_args 0 2 false)) k recs /\
    (recs <> [] ->
     current_file_index k = (len recs - 1) / split_size (run_args 0 2 false)).
Proof.
  destruct (split_fills_files_in_order sample_json (constant_world "{'oracle_id': 'X'}")
              (run_args 0 2 false) five_cards) as [Hseq _].
  - cbn. lia.
  - apply Hseq.
Defined.

(** *** The event loop: termination, progress, capacity zero *)

Lemma weight_insert (l : list task) (i : nat) (t t' : task) :
  l !! i = Some t ->
  fold_right (fun t acc => task_weight t + acc) 0 (<[i := t']> l)
  = fold_right (fun t acc => task_weight t + acc) 0 l - task_weight t + task_weight t'.
Proof.
  revert i. induction l as [|x l IH]; intros i Hi; [discriminate|].
  destruct i as [|i]; cbn in Hi.
  - injection Hi as ->. cbn. lia.
  - change (<[S i := t']> (x :: l)) with (x :: <[i := t']> l).
    cbn [fold_right]. rewrite (IH i Hi). lia.
Qed.

Lemma weight_nonneg (l : list task) :
  Forall attempt_in_range l ->
  0 <= fold_right (fun t acc => task_weight t + acc) 0 l.
Proof.
  unfold default_retries. induction 1 as [|t l Ht _ IH]; cbn [fold_right]; [lia|].
  destruct t; cbn [task_weight attempt_in_range] in *; unfold default_retries in *; lia.
Qed.

(** A step keeps the attempts in range and uses up at least one of the
    remaining steps. *)
Lemma step_decreases (L : JsonLib) (args : Args) (s s' : Loop) :
  step L args s s' ->
  Forall attempt_in_range (tasks s) ->
  Forall attempt_in_range (tasks s') /\ remaining_steps s' + 1 <= remaining_steps s.
Proof.
  intros Hstep Hall. unfold remaining_steps.
  destruct Hstep as [s i Hi Hfree|s i a o Hi|s i a Hi].
  - cbn [tasks]. rewrite (weight_insert _ _ _ _ Hi). split.
    + apply Forall_insert; [exact Hall|]. cbn. unfold default_retries. lia.
    + cbn. unfold default_retries. lia.
  - pose proof (Forall_lookup_1 _ _ _ _ Hall Hi) as Ha. cbn in Ha.
    destruct (attempt_result L o) as [v|].
    + destruct (finish_tasks L args i v s) as (-> & _).
      rewrite (weight_insert _ _ _ _ Hi). split.
      * by apply Forall_insert.
      * cbn. lia.
    + cbn [set_task tasks]. rewrite (weight_insert _ _ _ _ Hi). split.
      * by apply Forall_insert.
      * cbn. lia.
  - pose proof (Forall_lookup_1 _ _ _ _ Hall Hi) as Ha. cbn in Ha.
    destruct (Z.ltb_spec (a + 1) default_retries) as [Hlt|Hge].
    + cbn [set_task tasks]. rewrite (weight_insert _ _ _ _ Hi). split.
      * apply Forall_insert; [exact Hall|]. cbn. lia.
      * cbn. lia.
    + destruct (finish_tasks L args i JNull s) as (-> & _).
      rewrite (weight_insert _ _ _ _ Hi). split.
      * by apply Forall_insert.
      * cbn. lia.
Qed.

Lemma nsteps_bounded (L : JsonLib) (args : Args) (n : nat) (s s' : Loop) :
  nsteps (step L args) n s s' ->
  Forall attempt_in_range (tasks s) ->
  Z.of_nat n <= remaining_steps s.
Proof.
  induction 1 as [s|n s1 s2 s3 Hstep _ IH]; intros Hall.
  - apply weight_nonneg, Hall.
  - destruct (step_decreases L args s1 s2 Hstep Hall) as [Hall2 Hdec].
    specialize (IH Hall2). lia.
Qed.

Lemma created_weight (cards : list Card) :
  fold_right (fun t acc => task_weight t + acc) 0 (map (fun _ => Created) cards)
  = 11 * len cards.
Proof.
  unfold len. induction cards as [|c r IH]; [reflexivity|].
  cbn [map fold_right length]. rewrite IH. cbn [task_weight]. unfold default_retries. lia.
Qed.

(** The asynchronous run cannot go on for ever: whatever the order of the
    tasks and the replies of the service, an execution from the start has at
    most eleven steps per card (the admission, five calls and five
    sleeps). *)
Theorem async_run_terminates (L : JsonLib) (args : Args) (cards : list Card)
    (fs : gmap filename (list str)) (s0 s : Loop) (n : nat) :
  async_start args cards fs = Some s0 ->
  nsteps (step L args) n s0 s ->
  Z.of_nat n <= 11 * len cards.
Proof.
  intros Hstart Hrun. unfold async_start in Hstart.
  destruct (concurrency args <? 0); [discriminate|]. injection Hstart as <-.
  rewrite <- created_weight. apply (nsteps_bounded L args n _ s Hrun).
  cbn [tasks]. apply Forall_forall. intros t Ht.
  apply list_elem_of_fmap in Ht as (c & -> & _). exact I.
Qed.

Lemma async_run_terminates_witness : Z.of_nat 2 <= 11 * len five_cards.
Proof.
  apply (async_run_terminates sample_json default_args five_cards ∅
           sample_loop_start sample_loop_written 2).
  - reflexivity.
  - eapply nsteps_l; [|eapply nsteps_l; [|apply nsteps_O]].
    + apply (step_acquire sample_json default_args sample_loop_start 0%nat);
        reflexivity.
    + apply (step_attempt sample_json default_args sample_loop_admitted 0%nat 0
               (Replies (quoted "{'oracle_id': 'A'}"))).
      reflexivity.
Defined.

Lemma unfinished_or_all_finished (l : list task) :
  Forall (fun t => is_finished t = true) l \/
  exists i t, l !! i = Some t /\ is_finished t = false.
Proof.
  induction l as [|x l [IH|(i & t & Hi & Ht)]].
  - left. constructor.
  - destruct (is_finished x) eqn:E.
    + left. by constructor.
    + right. by exists 0%nat, x.
  - right. by exists (S i), t.
Qed.

Lemma holder_exists (l : list task) :
  0 < len (List.filter holds_slot l) ->
  exists i t, l !! i = Some t /\ holds_slot t = true.
Proof.
  unfold len. destruct (List.filter holds_slot l) as [|x r] eqn:E; cbn; [lia|].
  intros _. assert (Hin : In x (List.filter holds_slot l)) by (rewrite E; by left).
  apply filter_In in Hin as [Hin Hx]. apply list_elem_of_In in Hin.
  apply list_elem_of_lookup_1 in Hin as [i Hi]. eauto.
Qed.

Lemma finished_hold_nothing (l : list task) :
  Forall (fun t => is_finished t = true) l ->
  List.filter holds_slot l = [] /\ List.filter is_calling l = [].
Proof.
  induction 1 as [|t l Ht _ [IH1 IH2]]; [done|].
  destruct t; try discriminate. cbn [List.filter holds_slot is_calling]. auto.
Qed.

Lemma reachable_gate_ok (L : JsonLib) (args : Args) (cards : list Card)
    (fs : gmap filename (list str)) (s0 s : Loop) :
  async_start args cards fs = Some s0 ->
  reachable L args s0 s ->
  gate_ok (concurrency args) s.
Proof.
  intros Hstart. unfold async_start in Hstart.
  destruct (Z.ltb_spec (concurrency args) 0) as [|Hpos]; [discriminate|].
  injection Hstart as <-. revert s. apply reachable_invariant.
  - unfold gate_ok. cbn [tasks sem]. rewrite created_holds_no_slot. unfold len. cbn. lia.
  - intros s1 s2 Hstep. by apply (gate_ok_step L args).
Qed.

(** With a capacity of at least one the asynchronous run cannot get stuck:
    a reachable state either has every task finished, and then every slot
    is free again and no call is in flight, or it can take a step. *)
Theorem async_no_deadlock (L : JsonLib) (args : Args) (cards : list Card)
    (fs : gmap filename (list str)) (s0 s : Loop) :
  1 <= concurrency args ->
  async_start args cards fs = Some s0 ->
  reachable L args s0 s ->
  (Forall (fun t => is_finished t = true) (tasks s) /\
   sem s = concurrency args /\ in_flight s = 0) \/
  (exists s', step L args s s').
Proof.
  intros Hcap Hstart Hreach.
  destruct (reachable_gate_ok L args cards fs s0 s Hstart Hreach) as [Hpos Hsum].
  destruct (unfinished_or_all_finished (tasks s)) as [Hall|(i & t & Hi & Ht)].
  - left. split; [exact Hall|].
    destruct (finished_hold_nothing _ Hall) as [H1 H2].
    unfold in_flight. rewrite H1 in Hsum. rewrite H2. unfold len in *. cbn in *.
    split; lia.
  - right. destruct t as [|a|a|v]; [| | |discriminate].
    + destruct (Z_lt_le_dec 0 (sem s)) as [Hfree|Hfull].
      * eexists. by apply (step_acquire L args s i).
      * destruct (holder_exists (tasks s)) as (j & t & Hj & Hh); [lia|].
        destruct t as [|b|b|w]; try discriminate.
        -- eexists. apply (step_attempt L args s j b Raises Hj).
        -- eexists. apply (step_wake L args s j b Hj).
    + eexists. apply (step_attempt L args s i a Raises Hi).
    + eexists. apply (step_wake L args s i a Hi).
Qed.

Lemma async_no_deadlock_witness :
  (Forall (fun t => is_finished t = true) (tasks sample_loop_written) /\
   sem sample_loop_written = concurrency default_args /\
   in_flight sample_loop_written = 0) \/
  (exists s', step sample_json default_args sample_loop_written s').
Proof.
  apply (async_no_deadlock sample_json default_args five_cards ∅ sample_loop_start).
  - cbn. lia.
  - reflexivity.
  - exact sample_loop_reachable.
Defined.

(** The capacity is not validated.  A negative capacity is refused by the
    semaphore.  With capacity zero the run starts and then hangs: no task is
    ever let in, so no state other than the first is reachable, and with at
    least one card that state has unfinished tasks. *)
Theorem async_capacity_zero_hangs (L : JsonLib) (args : Args) (cards : list Card)
    (fs : gmap filename (list str)) :
  (concurrency args < 0 -> async_start args cards fs = None) /\
  (concurrency args = 0 ->
   exists s0,
     async_start args cards fs = Some s0 /\
     (forall s, reachable L args s0 s -> s = s0) /\
     (forall s', ~ step L args s0 s') /\
     (cards <> [] -> ~ Forall (fun t => is_finished t = true) (tasks s0))).
Proof.
  unfold async_start. split.
  - intros H. by destruct (Z.ltb_spec (concurrency args) 0); [|lia].
  - intros H0. rewrite H0. cbn [Z.ltb Z.compare]. eexists. split; [reflexivity|].
    set (s0 := {| sem := 0; tasks := map (fun _ => Created) cards; sink := sink_start;
                  store := fs; records := []; admitted := [] |}).
    assert (Hstuck : forall s', ~ step L args s0 s').
    { intros s' Hstep.
      assert (Hc : forall i t, tasks s0 !! i = Some t -> t = Created).
      { intros i t Hi. cbn [tasks s0] in Hi. rewrite list_lookup_fmap in Hi.
        destruct (cards !! i); cbn in Hi; congruence. }
      inversion Hstep as [s i Hi Hfree|s i a o Hi|s i a Hi]; subst.
      - cbn in Hfree. lia.
      - apply Hc in Hi. discriminate.
      - apply Hc in Hi. discriminate. }
    split; [|split; [exact Hstuck|]].
    + apply reachable_invariant; [reflexivity|].
      intros s1 s2 Hstep ->. by destruct (Hstuck s2).
    + intros Hne Hall. destruct cards as [|c r]; [congruence|].
      cbn in Hall. apply Forall_cons in Hall as [Hc _]. discriminate.
Qed.

Lemma async_capacity_zero_hangs_witness :
  async_start (async_args (-1) 0) five_cards ∅ = None /\
  exists s0,
    async_start (async_args 0 0) five_cards ∅ = Some s0 /\
    (forall s, reachable sample_json (async_args 0 0) s0 s -> s = s0) /\
    (forall s', ~ step sample_json (async_args 0 0) s0 s') /\
    (five_cards <> [] -> ~ Forall (fun t => is_finished t = true) (tasks s0)).
Proof.
  split.
  - destruct (async_capacity_zero_hangs sample_json (async_args (-1) 0) five_cards ∅)
      as [H _].
    apply H. cbn. lia.
  - destruct (async_capacity_zero_hangs sample_json (async_args 0 0) five_cards ∅)
      as [_ H].
    apply H. reflexivity.
Defined.

(** *** Batch mode *)

Lemma batch_request_attempt (L : JsonLib) (W : World) (st : State) :
  (exists v, batch_attempt_result L (remote W (calls st)) = Some v /\
             batch_request L W st = (inl v, after_success st)) \/
  (batch_attempt_result L (remote W (calls st)) = None /\
   exists e, batch_request L W st = (inr e, after_success st)).
Proof.
  pose proof (batch_request_run L W st) as Hrun.
  pose proof (batch_request_result L W st) as Hres.
  destruct (batch_request L W st) as [res st1]. cbn [fst snd] in *. subst st1.
  unfold batch_attempt_result.
  destruct (attempt_result L (remote W (calls st))) as [[]|]; subst res; eauto.
Qed.



Lemma write_batch_totals (L : JsonLib) (p : filename) (items : list json) :
  forall k st, exists st',
    write_batch L p items k st
    = (inl {| successful_count := successful_count k + len (List.filter truthy items);
              current_file_index := current_file_index k;
              current_file_count := current_file_count k
                                    + len (List.filter truthy items) |}, st') /\
    journal st' = journal st ++ map (fun v => (p, v)) (List.filter truthy items) /\
    calls st' = calls st.
Proof.
  unfold len. induction items as [|r rest IH]; intros k st.
  - exists st. cbn. rewrite app_nil_r, !Z.add_0_r. by destruct k.
  - cbn [write_batch List.filter]. destruct (truthy r).
    + unfold bind at 1, write_record.
      match goal with |- context [write_batch L p rest ?k1 ?s1] =>
        destruct (IH k1 s1) as (st' & -> & J & C) end.
      exists st'. cbn [journal calls] in J, C. rewrite J, <- app_assoc.
      split; [|auto]. unfold count_success. cbn [successful_count current_file_index
        current_file_count length map]. rewrite Nat2Z.inj_succ.
      do 2 f_equal. f_equal; lia.
    + apply IH.
Qed.

(** One turn of the batch loop.  The controller returns a value without
    touching the files; the file of the turn is chosen once, before any
    item is seen, and created.  If the value cannot be iterated the loop
    raises [TypeError] there and then, and no later batch is tried.
    Otherwise every truthy item, however many there are, is written to that
    one file in order and counted, and the loop goes on. *)
Theorem batch_loop_turn (L : JsonLib) (W : World) (args : Args) (cards : list Card)
    (i : Z) (rest : list Z) (k : Sink) (st : State) :
  let k1 := switch_file (split_size args) k in
  let p := get_output_filename (output args) (current_file_index k1) in
  exists v st1,
    tag_cards_batch_sync L W (slice i (i + batch_size args) cards) default_retries st
    = (inl v, st1) /\
    files st1 = files st /\
    match py_iter v with
    | None =>
        batch_loop L W args cards (i :: rest) k st
        = (inr TypeError, set_files (fs_touch p) st1)
    | Some items =>
        exists st2,
          journal st2 = journal st ++ map (fun r => (p, r)) (List.filter truthy items) /\
          batch_loop L W args cards (i :: rest) k st
          = batch_loop L W args cards rest
              {| successful_count := successful_count k1 + len (List.filter truthy items);
                 current_file_index := current_file_index k1;
                 current_file_count := current_file_count k1
                                       + len (List.filter truthy items) |} st2
    end.
Proof.
  intros k1 p.
  set (batch := slice i (i + batch_size args) cards).
  destruct (tag_cards_batch_loop_returns L W batch (range default_retries) st)
    as (v & Hv & Hf & Hj).
  destruct (tag_cards_batch_loop L W batch (range default_retries) st)
    as [res st1] eqn:E.
  cbn [fst snd] in Hv, Hf, Hj. subst res.
  exists v, st1. split; [exact E|]. split; [exact Hf|].
  destruct (py_iter v) as [items|] eqn:Hi.
  - destruct (write_batch_totals L p items k1 (set_files (fs_touch p) st1))
      as (st2 & Hw & J & _).
    exists st2. split; [rewrite J; cbn [journal set_files]; by rewrite Hj|].
    cbn [batch_loop]. unfold bind, open_append, tag_cards_batch_sync.
    fold batch k1 p. rewrite E, Hi. cbn [ret]. by rewrite Hw.
  - cbn [batch_loop]. unfold bind, open_append, tag_cards_batch_sync.
    fold batch k1 p. by rewrite E, Hi.
Qed.

(** A reply that is a JSON object whose [results] is not iterable (a
    number, a boolean, [null]) passes the retry controller and then makes
    the write loop raise [TypeError]: the run stops after this one call, the
    file of the turn has been created, nothing is written and the remaining
    batches are not tried. *)
Theorem batch_results_not_iterable_aborts (L : JsonLib) (W : World) (args : Args)
    (cards : list Card) (i : Z) (rest : list Z) (k : Sink) (st : State)
    (kvs : list (str * json)) (v : json) :
  attempt_result L (remote W (calls st)) = Some (JObj kvs) ->
  dict_get (lit "results") kvs = Some v ->
  py_iter v = None ->
  let p := get_output_filename (output args)
             (current_file_index (switch_file (split_size args) k)) in
  batch_loop L W args cards (i :: rest) k st
  = (inr TypeError, set_files (fs_touch p) (after_success st)) /\
  content (fs_touch p (files st)) p = content (files st) p /\
  is_Some (fs_touch p (files st) !! p).
Proof.
  intros Hreply Hget Hiter p. split; [|split].
  - cbn [batch_loop]. unfold bind at 1, tag_cards_batch_sync.
    change (range default_retries) with [0; 1; 2; 3; 4].
    cbn [tag_cards_batch_loop]. unfold try_except.
    destruct (batch_request_attempt L W st) as [(w & Hw & ->)|(Hnone & _)].
    + unfold batch_attempt_result in Hw. rewrite Hreply, Hget in Hw.
      injection Hw as <-. unfold bind at 1, open_append. unfold bind at 1.
      by rewrite Hiter.
    + unfold batch_attempt_result in Hnone. rewrite Hreply in Hnone. discriminate.
  - apply content_touch.
  - unfold fs_touch. rewrite lookup_insert_eq. eauto.
Qed.

Lemma batch_results_not_iterable_aborts_witness :
  batch_loop sample_json (constant_world "{'results': 5}") (run_args 2 0 false)
    five_cards [0; 2; 4] sink_start fresh_state
  = (inr TypeError,
     set_files (fs_touch (path_of sample_output)) (after_success fresh_state)).
Proof.
  destruct (batch_results_not_iterable_aborts sample_json
              (constant_world "{'results': 5}") (run_args 2 0 false) five_cards
              0 [2; 4] sink_start fresh_state [(lit "results", JInt 5)] (JInt 5))
    as [H _]; [reflexivity..|].
  exact H.
Defined.

Lemma chunks_concat {A} (size : nat) (m : nat) :
  forall l : list A,
    (length l <= m * size)%nat ->
    concat (map (fun k => take size (drop (k * size) l)) (seq 0 m)) = l.
Proof.
  induction m as [|m IH]; intros l Hl.
  - destruct l; [reflexivity | cbn in Hl; lia].
  - cbn [seq map concat]. rewrite <- seq_shift, map_map.
    cbn [Nat.mul Nat.add]. change (drop 0 l) with l.
    transitivity (take size l ++ drop size l); [|apply take_drop]. f_equal.
    rewrite <- (IH (drop size l)) by (rewrite length_drop; lia).
    f_equal. apply map_ext. intros k. by rewrite drop_drop.
Qed.

Lemma slice_chunk {A} (size : Z) (k : nat) (l : list A) :
  0 < size ->
  slice (Z.of_nat k * size) (Z.of_nat k * size + size) l
  = take (Z.to_nat size) (drop (k * Z.to_nat size) l).
Proof.
  intros Hs. unfold slice. f_equal; [f_equal; lia | f_equal; nia].
Qed.

(** The batches of [main] cut the list of cards into consecutive pieces:
    put end to end they give the list back, every card in exactly one batch
    and in order; there are [ceil(len / batch_size)] of them, each with at
    least one card and at most [batch_size]. *)
Theorem batches_partition (cards : list Card) (size : Z) :
  0 < size ->
  concat (batches cards size) = cards /\
  len (batches cards size) = (len cards + size - 1) / size /\
  Forall (fun b => 1 <= len b <= size) (batches cards size).
Proof.
  intros Hs. unfold batches, range_step, len.
  set (n := length cards). set (q := (Z.of_nat n + size - 1) / size).
  assert (Hq : q * size <= Z.of_nat n + size - 1 < q * size + size).
  { unfold q. pose proof (Z.div_mod (Z.of_nat n + size - 1) size ltac:(lia)) as Hd.
    pose proof (Z.mod_pos_bound (Z.of_nat n + size - 1) size Hs). nia. }
  assert (Hq0 : 0 <= q) by (apply Z.div_pos; lia).
  rewrite map_map. split; [|split].
  - erewrite map_ext; [|intros k; apply slice_chunk; exact Hs].
    apply chunks_concat. fold n. nia.
  - rewrite length_map, length_seq. lia.
  - apply Forall_forall. intros b Hb. apply list_elem_of_In, in_map_iff in Hb.
    destruct Hb as (k & <- & Hk). apply in_seq in Hk.
    rewrite slice_chunk by exact Hs. rewrite length_take, length_drop. fold n. nia.
Qed.

Lemma batches_partition_witness :
  concat (batches five_cards 2) = five_cards /\
  len (batches five_cards 2) = (len five_cards + 2 - 1) / 2 /\
  Forall (fun b => 1 <= len b <= 2) (batches five_cards 2).
Proof. apply (batches_partition five_cards 2). lia. Defined.

(** *** The success counter *)

Lemma batch_loop_count (L : JsonLib) (W : World) (args : Args) (cards : list Card)
    (starts : list Z) :
  forall k st k' st',
    batch_loop L W args cards starts k st = (inl k', st') ->
    exists recs,
      journal st' = journal st ++ recs /\
      successful_count k' = successful_count k + len recs.
Proof.
  induction starts as [|i rest IH]; intros k st k' st' Hrun.
  - cbn in Hrun. injection Hrun as <- <-. exists []. rewrite app_nil_r.
    unfold len. cbn. split; [reflexivity | lia].
  - cbn [batch_loop] in Hrun. unfold bind at 1, tag_cards_batch_sync in Hrun.
    destruct (tag_cards_batch_loop_returns L W (slice i (i + batch_size args) cards)
                (range default_retries) st) as (v & Hv & _ & Hj).
    destruct (tag_cards_batch_loop L W _ (range default_retries) st) as [res st1].
    cbn [fst snd] in Hv, Hj. subst res.
    unfold bind at 1, open_append in Hrun. unfold bind at 1 in Hrun.
    destruct (py_iter v) as [items|]; [|discriminate].
    cbn [ret] in Hrun. unfold bind at 1 in Hrun.
    match type of Hrun with context [write_batch L ?p items ?k1 ?s1] =>
      destruct (write_batch_totals L p items k1 s1) as (st2 & Hw & J & _);
      rewrite Hw in Hrun; set (file := p) in * end.
    destruct (IH _ _ _ _ Hrun) as (recs & J' & Hs).
    exists (map (fun r => (file, r)) (List.filter truthy items) ++ recs).
    cbn [journal set_files successful_count] in *.
    rewrite J', J, Hj, <- app_assoc. split; [reflexivity|].
    rewrite Hs. unfold len. rewrite length_app, length_map.
    assert (Hsw : successful_count (switch_file (split_size args) k)
                  = successful_count k).
    { unfold switch_file. by destruct (_ && _). }
    lia.
Qed.

Lemma counter_step (L : JsonLib) (args : Args) (s s' : Loop) :
  step L args s s' ->
  successful_count (sink s) = len (records s) ->
  successful_count (sink s') = len (records s').
Proof.
  intros Hstep Hok.
  assert (Hfin : forall i v,
             successful_count (sink (finish L args i v s))
             = len (records (finish L args i v s))).
  { intros i v. unfold finish. destruct (truthy v); [|exact Hok].
    cbn [sink records]. unfold count_success, switch_file, len in *.
    rewrite length_app. destruct (_ && _); cbn; lia. }
  destruct Hstep as [s i Hi Hfree|s i a o Hi|s i a Hi].
  - exact Hok.
  - destruct (attempt_result L o); [apply Hfin | exact Hok].
  - destruct (a + 1 <? default_retries); [exact Hok | apply Hfin].
Qed.

Lemma nodup_below_length (l : list nat) (n : nat) :
  NoDup l -> (forall i, i ∈ l -> (i < n)%nat) -> (length l <= n)%nat.
Proof.
  intros Hnd Hlt. rewrite <- (length_seq n 0).
  apply NoDup_incl_length; [by apply NoDup_ListNoDup|].
  intros i Hi. apply in_seq. apply list_elem_of_In, Hlt in Hi. lia.
Qed.

(** The number of successes that a run reports is the number of records it
    wrote: in batch mode whenever the loop returns, and in the asynchronous
    mode at every moment, where it is also at most the number of cards. *)
Theorem success_counter_counts_records (L : JsonLib) (W : World) (args : Args)
    (cards : list Card) :
  (forall starts k st k' st',
      batch_loop L W args cards starts k st = (inl k', st') ->
      exists recs,
        journal st' = journal st ++ recs /\
        successful_count k' = successful_count k + len recs) /\
  (forall fs s0 s,
      async_start args cards fs = Some s0 ->
      reachable L args s0 s ->
      successful_count (sink s) = len (records s) /\
      len (records s) <= len cards).
Proof.
  split; [intros starts; apply batch_loop_count|].
  intros fs s0 s Hstart. unfold async_start in Hstart.
  destruct (concurrency args <? 0); [discriminate|]. injection Hstart as <-.
  intros Hreach.
  assert (Hinv : successful_count (sink s) = len (records s) /\
                 length (tasks s) = length cards /\ records_ok L fs s).
  { revert s Hreach. apply reachable_invariant.
    - cbn [sink records tasks]. split; [reflexivity|]. split; [by rewrite length_map|].
      split; [apply appended_refl|]. split; [apply Forall_nil_2 | apply NoDup_nil_2].
    - intros s1 s2 Hstep (H1 & H2 & H3). split; [by apply (counter_step L args s1)|].
      split; [by rewrite (tasks_length_step _ _ _ _ Hstep)|].
      by apply (records_ok_step L args fs s1). }
  destruct Hinv as (Hc & Hlen & _ & Hall & Hnd). split; [exact Hc|].
  unfold len. rewrite <- Hlen, <- (length_map (fun r => fst (fst r)) (records s)).
  apply inj_le, nodup_below_length; [exact Hnd|].
  intros i Hi. apply list_elem_of_fmap in Hi as (r & -> & Hr).
  rewrite Forall_forall in Hall. destruct (Hall r Hr) as [_ Hfin].
  by eapply lookup_lt_Some.
Qed.

Lemma success_counter_counts_records_witness :
  successful_count (sink sample_loop_written) = len (records sample_loop_written) /\
  len (records sample_loop_written) <= len five_cards.
Proof.
  destruct (success_counter_counts_records sample_json dead_world default_args
              five_cards) as [_ H].
  apply (H ∅ sample_loop_start sample_loop_written).
  - reflexivity.
  - exact sample_loop_reachable.
Defined.

(** *** Filters of [main] *)

Lemma filter_elem {A} (f : A -> bool) (l : list A) (x : A) :
  x ∈ List.filter f l <-> x ∈ l /\ f x = true.
Proof. by rewrite !list_elem_of_In, filter_In. Qed.

Lemma edh_legal_spec (card : Card) :
  edh_legal card = true <-> commander_legality card = Some (lit "legal").
Proof.
  unfold edh_legal, str_eqb. destruct (commander_legality card) as [l|]; [|done].
  rewrite bool_decide_eq_true. split; congruence.
Qed.

Lemma has_oracle_text_spec (card : Card) :
  has_oracle_text card = true <-> oracle_text card <> [].
Proof. unfold has_oracle_text. by destruct (oracle_text card). Qed.

(** Whatever the arguments and the state of the output file, the cards
    that [main] goes on to process are a sub-sequence of the input (same
    order, none twice that was not twice in the input), every one of them
    has an oracle text, and with [--edh-only] every one is legal in
    Commander; the preparation never raises. *)
Theorem prepared_cards_are_filtered_input (L : JsonLib) (args : Args)
    (input_cards : list Card) (st : State) :
  exists cards st0,
    prepare L args input_cards st = (inl cards, st0) /\
    sublist cards input_cards /\
    Forall (fun card =>
              oracle_text card <> [] /\
              (edh_only args = true -> commander_legality card = Some (lit "legal")))
      cards.
Proof.
  destruct (prepare_returns L args input_cards st) as (cards & st0 & Hp & Hsub & _).
  exists cards, st0. split; [exact Hp|]. split; [exact Hsub|].
  assert (Hin : forall card, card ∈ cards -> card ∈ apply_filters args input_cards).
  { unfold prepare, resume_or_clear in Hp. intros card Hc.
    destruct (resume args).
    - destruct (files st !! path_of (output args)) as [lines|].
      + destruct (resume_scan L lines []); injection Hp as <- <-; [|exact Hc].
        by apply filter_elem in Hc as [Hc _].
      + by injection Hp as <- <-.
    - by injection Hp as <- <-. }
  apply Forall_forall. intros card Hc. apply Hin in Hc. clear Hin Hp.
  unfold apply_filters, color_filter in Hc.
  assert (H : card ∈ (if edh_only args
                      then List.filter edh_legal (List.filter has_oracle_text input_cards)
                      else List.filter has_oracle_text input_cards)).
  { destruct (negb _ || colorless args); [|exact Hc]. by apply filter_elem in Hc as [Hc _]. }
  destruct (edh_only args).
  - apply filter_elem in H as [H Hl]. apply filter_elem in H as [_ Ht].
    split; [by apply has_oracle_text_spec|]. intros _. by apply edh_legal_spec.
  - apply filter_elem in H as [_ Ht]. split; [by apply has_oracle_text_spec|]. discriminate.
Qed.

Lemma list_to_set_empty_iff (l : list str) : (list_to_set l : gset str) = ∅ <-> l = [].
Proof.
  split; [|by intros ->]. destruct l as [|x l]; [done|]. intros E.
  assert (H : x ∈ (list_to_set (x :: l) : gset str)) by (apply elem_of_list_to_set; left).
  rewrite E in H. by apply not_elem_of_empty in H.
Qed.

Lemma list_to_set_eq_iff (l1 l2 : list str) :
  (list_to_set l1 : gset str) = list_to_set l2 <-> forall c, c ∈ l1 <-> c ∈ l2.
Proof.
  rewrite set_eq. split; intros H c; specialize (H c);
    by rewrite ?elem_of_list_to_set in *.
Qed.

Lemma color_match_spec (args : Args) (card : Card) :
  color_match args card = true <->
  (colorless args = true /\ color_identity card = []) \/
  (colors args <> [] /\ forall c, c ∈ color_identity card <-> c ∈ colors args).
Proof.
  rewrite <- (list_to_set_empty_iff (color_identity card)).
  rewrite <- (list_to_set_empty_iff (colors args)).
  rewrite <- (list_to_set_eq_iff (color_identity card) (colors args)).
  unfold color_match.
  destruct (colorless args); repeat case_bool_decide; cbn [negb andb];
    intuition congruence.
Qed.

(** The colour filter for every target.  Without colours and without the
    colourless flag nothing is filtered.  Otherwise a card is kept exactly
    when the colourless flag is set and it has no colour, or colours were
    given and its identity has the same symbols as the list given: a
    proper subset or superset is dropped.  Only the set of the symbols
    counts: the order of the colours on the command line and repetitions
    change nothing. *)
Theorem color_filter_keeps (args : Args) (cards : list Card) :
  (forall card,
      card ∈ color_filter args cards <->
      card ∈ cards /\
      ((colors args = [] /\ colorless args = false) \/
       (colorless args = true /\ color_identity card = []) \/
       (colors args <> [] /\ forall c, c ∈ color_identity card <-> c ∈ colors args))) /\
  (forall args',
      (forall c, c ∈ colors args <-> c ∈ colors args') ->
      colorless args' = colorless args ->
      color_filter args' cards = color_filter args cards).
Proof.
  split.
  - intros card. unfold color_filter.
    case_bool_decide as Hcol; cbn [negb orb].
    + destruct (colorless args) eqn:Ecl.
      * rewrite filter_elem, color_match_spec, Ecl. split.
        -- intros [Hc [H|H]]; auto.
        -- intros [Hc [[_ H]|[H|H]]]; try done; auto.
      * split; [intros Hc; split; auto|by intros [Hc _]].
    + cbn [orb]. rewrite filter_elem, color_match_spec. split.
      * intros [Hc [H|H]]; auto.
      * intros [Hc [[H _]|[H|H]]]; try done; auto.
  - intros args' Hsame Hcl.
    assert (Hset : (list_to_set (colors args') : gset str) = list_to_set (colors args)).
    { apply list_to_set_eq_iff. intros c. by rewrite Hsame. }
    assert (Hnil : colors args' = [] <-> colors args = []).
    { by rewrite <- !list_to_set_empty_iff, Hset. }
    unfold color_filter. rewrite Hcl.
    assert (Hm : forall card, color_match args' card = color_match args card).
    { intros card. unfold color_match. by rewrite Hcl, Hset. }
    rewrite (bool_decide_ext _ _ Hnil).
    destruct (negb _ || colorless args); [|reflexivity].
    clear -Hm. induction cards as [|c r IH]; [reflexivity|].
    cbn [List.filter]. by rewrite Hm, IH.
Qed.

Lemma color_filter_keeps_witness :
  color_filter (with_colors "RBB" false)
    [sample_card "Rakdos" "BR"; sample_card "Swamp" "B"]
  = color_filter (with_colors "BR" false)
      [sample_card "Rakdos" "BR"; sample_card "Swamp" "B"].
Proof.
  destruct (color_filter_keeps (with_colors "BR" false)
              [sample_card "Rakdos" "BR"; sample_card "Swamp" "B"]) as [_ H].
  apply (H (with_colors "RBB" false)); [|reflexivity].
  intros c.
  change (colors (with_colors "BR" false)) with [lit "B"; lit "R"].
  change (colors (with_colors "RBB" false)) with [lit "R"; lit "B"; lit "B"].
  rewrite !elem_of_cons, !elem_of_nil. tauto.
Defined.

(** *** Resume *)

Lemma resume_scan_unusable (L : JsonLib) (lines : list str) (line : str) :
  line ∈ lines -> unusable_line L line ->
  forall processed, resume_scan L lines processed = None.
Proof.
  intros Hin (Hne & v & Hv & Hbad). induction lines as [|l rest IH]; intros processed.
  - by apply not_elem_of_nil in Hin.
  - cbn [resume_scan]. apply elem_of_cons in Hin as [<-|Hin].
    + destruct (strip line) eqn:E; [congruence|]. rewrite Hv.
      destruct v; try reflexivity. by rewrite Hbad.
    + destruct (strip l) eqn:E; [by apply IH|].
      destruct (json_loads L (n :: l0)) as [[]|]; try reflexivity.
      destruct (hashable _); [by apply IH | reflexivity].
Qed.

(** A line of the output file that is valid JSON but not an object (the
    sink itself writes such lines when a reply is an array, a string or a
    number), or an object whose [oracle_id] is a list or a dict, makes the
    resume scan raise just as an unparseable line does: the exception is
    caught, no card is filtered out and no file is touched. *)
Theorem resume_scan_aborts_on_unusable_line (L : JsonLib) (args : Args)
    (input_cards : list Card) (st : State) (lines : list str) (line : str) :
  resume args = true ->
  files st !! path_of (output args) = Some lines ->
  line ∈ lines ->
  unusable_line L line ->
  resume_scan L lines [] = None /\
  prepare L args input_cards st = (inl (apply_filters args input_cards), st).
Proof.
  intros Hres Hfile Hin Hbad.
  pose proof (resume_scan_unusable L lines line Hin Hbad []) as Hscan.
  split; [exact Hscan|].
  unfold prepare, resume_or_clear. by rewrite Hres, Hfile, Hscan.
Qed.

Lemma resume_scan_aborts_on_unusable_line_witness :
  content (files (snd (main sample_json (constant_world "[1]") (run_args 0 0 false)
                         [sample_card "A" ""] fresh_state)))
    (path_of sample_output) = [lit "[1]"] /\
  prepare sample_json (run_args 0 0 true) [sample_card "A" ""]
    (state_with_files array_output)
  = (inl (apply_filters (run_args 0 0 true) [sample_card "A" ""]),
     state_with_files array_output).
Proof.
  split; [vm_compute; reflexivity|].
  apply (resume_scan_aborts_on_unusable_line sample_json (run_args 0 0 true)
           [sample_card "A" ""] (state_with_files array_output) [lit "[1]"] (lit "[1]")).
  - reflexivity.
  - vm_compute. reflexivity.
  - left.
  - split; [vm_compute; discriminate|].
    exists (JArr [JInt 1]). split; [vm_compute; reflexivity | exact I].
Defined.

(** With [--resume] the preparation writes nothing in any case, whether the
    output file is readable, unreadable or missing; it makes no remote call;
    and when the output file is missing every filtered card is kept. *)
Theorem resume_never_writes (L : JsonLib) (args : Args) (input_cards : list Card)
    (st : State) :
  resume args = true ->
  exists cards,
    prepare L args input_cards st = (inl cards, st) /\
    sublist cards (apply_filters args input_cards) /\
    (files st !! path_of (output args) = None ->
     cards = apply_filters args input_cards).
Proof.
  intros Hres. unfold prepare, resume_or_clear. rewrite Hres.
  destruct (files st !! path_of (output args)) as [lines|].
  - destruct (resume_scan L lines []) as [ids|]; eexists; (split; [reflexivity|]);
      (split; [|discriminate]); [apply filter_sublist | reflexivity].
  - eexists. split; [reflexivity|]. split; reflexivity.
Qed.

Lemma resume_never_writes_witness :
  exists cards,
    prepare sample_json (run_args 0 0 true) five_cards fresh_state
    = (inl cards, fresh_state) /\
    sublist cards (apply_filters (run_args 0 0 true) five_cards) /\
    (files fresh_state !! path_of (output (run_args 0 0 true)) = None ->
     cards = apply_filters (run_args 0 0 true) five_cards).
Proof.
  apply (resume_never_writes sample_json (run_args 0 0 true) five_cards fresh_state).
  reflexivity.
Defined.

(** *** [filter_cards.py] *)

Lemma get_color_combinations_list :
  get_color_combinations
  = [ {[lit "B"]}; {[lit "W"]}; {[lit "R"]};
      {[lit "B"; lit "W"]}; {[lit "B"; lit "R"]}; {[lit "W"; lit "R"]};
      {[lit "B"; lit "W"; lit "R"]} ].
Proof. reflexivity. Qed.

Lemma in_combinations_spec (X : gset str) :
  in_combinations X get_color_combinations = true <->
  X <> ∅ /\ X ⊆ {[lit "B"; lit "W"; lit "R"]}.
Proof.
  rewrite get_color_combinations_list. unfold in_combinations.
  assert (HBW : lit "B" <> lit "W") by discriminate.
  assert (HBR : lit "B" <> lit "R") by discriminate.
  assert (HWR : lit "W" <> lit "R") by discriminate.
  generalize dependent (lit "B"). generalize dependent (lit "W").
  generalize dependent (lit "R"). intros r w HWR b HBW HBR.
  cbn [existsb]. rewrite !orb_true_iff, !bool_decide_eq_true. split.
  - intros [->|[->|[->|[->|[->|[->|[->|?]]]]]]]; try discriminate; set_solver.
  - intros [Hne Hsub].
    destruct (decide (b ∈ X)), (decide (w ∈ X)), (decide (r ∈ X)).
    + do 6 right. left. set_solver.
    + do 3 right. left. set_solver.
    + do 4 right. left. set_solver.
    + left. set_solver.
    + do 5 right. left. set_solver.
    + right. left. set_solver.
    + do 2 right. left. set_solver.
    + exfalso. apply Hne. set_solver.
Qed.

(** [filter_cards] keeps exactly the cards that have an oracle text, are
    legal in Commander and whose colour identity is not empty and uses only
    B, W and R.  In particular a colourless card is never kept. *)
Theorem filter_cards_keeps (all_cards : list Card) (card : Card) :
  card ∈ filter_cards all_cards <->
  card ∈ all_cards /\
  oracle_text card <> [] /\
  commander_legality card = Some (lit "legal") /\
  color_identity card <> [] /\
  forall c, c ∈ color_identity card -> c = lit "B" \/ c = lit "W" \/ c = lit "R".
Proof.
  unfold filter_cards. rewrite filter_elem.
  rewrite <- has_oracle_text_spec, <- edh_legal_spec.
  rewrite <- (list_to_set_empty_iff (color_identity card)).
  assert (Hsub : (list_to_set (color_identity card) : gset str)
                 ⊆ {[lit "B"; lit "W"; lit "R"]} <->
                 forall c, c ∈ color_identity card ->
                           c = lit "B" \/ c = lit "W" \/ c = lit "R").
  { split.
    - intros H c Hc. apply (elem_of_list_to_set (C := gset str)) in Hc.
      apply H in Hc. set_solver.
    - intros H c Hc. apply elem_of_list_to_set in Hc. apply H in Hc. set_solver. }
  rewrite <- Hsub.
  destruct (has_oracle_text card); cbn [negb];
    [|split; [intros [_ ?] | intros (_ & ? & _)]; discriminate].
  destruct (edh_legal card); cbn [negb];
    [|split; [intros [_ ?] | intros (_ & _ & ? & _)]; discriminate].
  rewrite in_combinations_spec. tauto.
Qed.

(** Feeding the output of [filter_cards] to the tagger loses nothing at the
    tagger's own text and legality filters, with or without [--edh-only],
    when no colour filter is asked for; and filtering twice is filtering
    once. *)
Theorem filter_cards_then_tagger_filters (args : Args) (all_cards : list Card) :
  colors args = [] -> colorless args = false ->
  apply_filters args (filter_cards all_cards) = filter_cards all_cards /\
  filter_cards (filter_cards all_cards) = filter_cards all_cards.
Proof.
  intros Hcol Hcl.
  assert (Hid : forall (f : Card -> bool) (l : list Card),
             (forall c, c ∈ l -> f c = true) -> List.filter f l = l).
  { intros f l. induction l as [|x l IH]; intros H; [reflexivity|].
    cbn [List.filter]. rewrite (H x) by left. f_equal. apply IH.
    intros c Hc. apply H. by right. }
  assert (Hkept : forall c, c ∈ filter_cards all_cards ->
                            has_oracle_text c = true /\ edh_legal c = true).
  { intros c Hc. unfold filter_cards in Hc. apply filter_elem in Hc as [_ Hc].
    destruct (has_oracle_text c); [|discriminate].
    destruct (edh_legal c); [|discriminate]. by split. }
  split.
  - unfold apply_filters, color_filter. rewrite Hcol, Hcl.
    rewrite (bool_decide_eq_true_2 _ eq_refl). cbn [negb orb].
    rewrite (Hid has_oracle_text) by (intros c Hc; by apply Hkept).
    destruct (edh_only args); [|reflexivity].
    apply Hid. intros c Hc. by apply Hkept.
  - unfold filter_cards at 1. apply Hid. intros c Hc.
    unfold filter_cards in Hc. by apply filter_elem in Hc as [_ Hc].
Qed.

Lemma filter_cards_then_tagger_filters_witness :
  apply_filters default_args
    (filter_cards [sample_card "A" "BR"; sample_card "B" ""; sample_card "C" "G"])
  = filter_cards [sample_card "A" "BR"; sample_card "B" ""; sample_card "C" "G"] /\
  filter_cards (filter_cards [sample_card "A" "BR"; sample_card "B" ""; sample_card "C" "G"])
  = filter_cards [sample_card "A" "BR"; sample_card "B" ""; sample_card "C" "G"].
Proof.
  apply (filter_cards_then_tagger_filters default_args
           [sample_card "A" "BR"; sample_card "B" ""; sample_card "C" "G"]);
    reflexivity.
Defined.
